(** * The Go+ load pipeline ([load.go], package [gop])

    A shallow embedding of [load.go]: the position accessor [ErrorPos], the
    notated-error reconciliation ([isNotatedErr], [ignNotatedErrs]), the two
    loaders [LoadDir] and [LoadFiles] and the post-load hook [afterLoad] with
    [checkGopDeps].

    The packages [load.go] imports ([token], [ast], [gox], [errors],
    [strings], [parser], [cl], [gopmod]) are modelled by the part of their
    contract that [load.go] relies on.  A Go run-time panic (index or slice
    out of range, nil dereference) is an explicit outcome. *)

From Stdlib Require Import ZArith String Ascii List Lia Sorted.
From stdpp Require Import base tactics option list gmap strings.

Open Scope Z_scope.

Set Warnings "-register-all".

(** ** Outcomes of Go code that may panic *)

Inductive outcome (A : Type) : Type :=
| Ret (a : A)
| Panic (msg : string).
Arguments Ret {A} a.
Arguments Panic {A} msg.

#[global] Instance outcome_ret : MRet outcome := @Ret.
#[global] Instance outcome_bind : MBind outcome := fun A B f m =>
  match m with
  | Ret a => f a
  | Panic msg => Panic msg
  end.

(** ** Go's [strings] package, on byte strings *)

Module strings.

(** [strings.HasPrefix(s, prefix)]. *)
Fixpoint HasPrefix (s prefix : string) {struct prefix} : bool :=
  match prefix, s with
  | EmptyString, _ => true
  | String c p, String d s' => if Ascii.eqb c d then HasPrefix s' p else false
  | String _ _, EmptyString => false
  end.

(** Offset of the first occurrence of [substr] in [s], if there is one. *)
Fixpoint find (s substr : string) : option nat :=
  if HasPrefix s substr then Some 0%nat
  else match s with
       | EmptyString => None
       | String _ s' => S <$> find s' substr
       end.

(** [strings.Index(s, substr)]: the offset of the first occurrence, or -1. *)
Definition Index (s substr : string) : Z :=
  match find s substr with
  | Some n => Z.of_nat n
  | None => -1
  end.

(** [strings.Contains(s, substr)] is [Index(s, substr) >= 0]. *)
Definition Contains (s substr : string) : bool := 0 <=? Index s substr.

(** [strings.HasSuffix(s, suffix)]. *)
Definition HasSuffix (s suffix : string) : bool :=
  let n := String.length s in
  let k := String.length suffix in
  (k <=? n)%nat && String.eqb (String.substring (n - k) k s) suffix.

(** The slice expression [s[lo:hi]] on a byte string, or on a [[]byte]
    whose capacity is its length; it panics unless
    [0 <= lo <= hi <= len(s)]. *)
Definition slice (s : string) (lo hi : Z) : outcome string :=
  if (0 <=? lo) && (lo <=? hi) && (hi <=? Z.of_nat (String.length s))
  then Ret (String.substring (Z.to_nat lo) (Z.to_nat (hi - lo)) s)
  else Panic "slice bounds out of range".

(** The slice expression [s[lo:]]. *)
Definition slice_from (s : string) (lo : Z) : outcome string :=
  slice s lo (Z.of_nat (String.length s)).

End strings.

(** ** Errors *)

(** The dynamic types of [error] values that [load.go] tells apart. *)
Inductive error : Type :=
| errorString (msg : string)
    (** [errors.New(msg)] *)
| CodeError (Pos : Z) (Msg : string)
    (** [*gox.CodeError]; [Pos] is a field *)
| MatchError (Pos : Z) (Msg : string)
    (** [*gox.MatchError]; [Pos] is what the method [Pos()] returns *)
| ImportError (Pos : Z) (Path : string) (Err : error)
    (** [*gox.ImportError]; [Pos] is a field *)
| List (errs : list error)
    (** [errors.List], a slice of errors *)
| Frame (Err : error) (Code : string) (Func : string)
    (** [*errors.Frame], what [errors.NewWith] builds *).

Module errors.

Definition New (msg : string) : error := errorString msg.

(** [errors.NewWith(err, code, n, fn, args...)]: the frame keeps the
    wrapped error, the source text of the call and the function's name. *)
Definition NewWith (err : error) (code : string) (fn : string) : error :=
  Frame err code fn.

(** [errors.Err(err)]: the cause under the frames. *)
Fixpoint Err (err : error) : error :=
  match err with
  | Frame e _ _ => Err e
  | _ => err
  end.

End errors.

Definition ErrIgnoreNotated : error := errors.New "notated error ignored".
Definition ErrMultiPackges : error := errors.New "multiple packages".
Definition ErrMultiTestPackges : error := errors.New "multiple test packages".

(** ** Positions and the file set ([token]) *)

Module token.

Definition Pos : Type := Z.
Definition NoPos : Pos := 0.

(** A file of a file set: its registered name, its base in the global
    offset space, its size and its table of line-start offsets.  The
    table is what [token.Lines] exposes; line numbers are those of the
    table. *)
Record File : Type := {
  name : string;
  base : Z;
  size : Z;
  lines : list Z;
}.

Definition File_Name (f : File) : string := name f.
Definition File_Size (f : File) : Z := size f.
Definition Lines (f : File) : list Z := lines f.

(** Index of the last entry of the sorted table [a] that is [<= x],
    or -1 when there is none. *)
Fixpoint searchInts (a : list Z) (x : Z) : Z :=
  match a with
  | [] => -1
  | y :: a' => if y <=? x then searchInts a' x + 1 else -1
  end.

(** [f.Line(p)]: the 1-based line number of [p], 0 for [NoPos]. *)
Definition File_Line (f : File) (p : Pos) : Z :=
  if p =? NoPos then 0 else searchInts (lines f) (p - base f) + 1.

(** A file set: its files in increasing order of base. *)
Definition FileSet : Type := list File.

(** The last file whose base is [<= x]. *)
Fixpoint searchFiles (files : list File) (x : Z) : option File :=
  match files with
  | [] => None
  | f :: files' =>
      if base f <=? x
      then match searchFiles files' x with
           | Some g => Some g
           | None => Some f
           end
      else None
  end.

(** [s.File(p)]: the file that contains position [p], nil if there is
    none or [p] is [NoPos]. *)
Definition FileSet_File (s : FileSet) (p : Pos) : option File :=
  if p =? NoPos then None
  else match searchFiles s p with
       | Some f => if p <=? base f + size f then Some f else None
       | None => None
       end.

End token.

(** ** Parsed packages ([ast]) *)

Module ast.

(** A parsed source file; [Code] is its source text. *)
Record File : Type := { Code : string }.

(** A parsed package: its declared name and its Go+ files by path. *)
Record Package : Type := {
  Name : string;
  Files : gmap string File;
}.

End ast.

(** ** Notated errors *)

(** [ErrorPos] returns where the error occurs. *)
Definition ErrorPos (err : error) : token.Pos :=
  match err with
  | CodeError pos _ => pos
  | MatchError pos _ => pos
  | ImportError pos _ _ => pos
  | _ => token.NoPos
  end.

(** Indexing [a[i]] of a slice of ints. *)
Definition index_int (a : list Z) (i : Z) : outcome Z :=
  if 0 <=? i
  then match a !! Z.to_nat i with
       | Some x => Ret x
       | None => Panic "index out of range"
       end
  else Panic "index out of range".

Definition isNotatedErr (err : error) (pkg : ast.Package) (fset : token.FileSet)
  : outcome bool :=
  let pos := ErrorPos err in
  match token.FileSet_File fset pos with
  | None => Ret false
  | Some f =>
      match ast.Files pkg !! token.File_Name f with
      | None => Ret false
      | Some gopf =>
          let lines := token.Lines f in
          let i := token.File_Line f pos - 1 in
          start ← index_int lines i;
          end_ ← (if i + 1 <? Z.of_nat (length lines)
                  then index_int lines (i + 1)
                  else Ret (token.File_Size f));
          text ← strings.slice (ast.Code gopf) start end_;
          let commentOff := strings.Index text "//" in
          if commentOff <? 0 then Ret false
          else
            rest ← strings.slice_from text (commentOff + 2);
            Ret (strings.Contains rest "compile error:")
      end
  end.

(** The loop of [ignNotatedErrs] over an [errors.List]: [ret] collects the
    elements that are not notated, in order. *)
Fixpoint ignNotatedErrs_loop (v : list error) (pkg : ast.Package)
    (fset : token.FileSet) (ret : list error) : outcome (list error) :=
  match v with
  | [] => Ret ret
  | e :: v' =>
      b ← isNotatedErr e pkg fset;
      if b : bool then ignNotatedErrs_loop v' pkg fset ret
      else ignNotatedErrs_loop v' pkg fset (ret ++ [e])
  end.

Definition ignNotatedErrs (err : error) (pkg : ast.Package) (fset : token.FileSet)
  : outcome error :=
  match err with
  | List v =>
      ret ← ignNotatedErrs_loop v pkg fset [];
      if (length ret =? 0)%nat then Ret ErrIgnoreNotated
      else Ret (List ret)
  | _ =>
      b ← isNotatedErr err pkg fset;
      if b : bool then Ret ErrIgnoreNotated else Ret err
  end.

(** ** The collaborators of the load pipeline *)

Module env.
(** [env.Gop]: the descriptor of the Go+ toolchain. *)
Record Gop : Type := { Version : string; Root : string }.
End env.

Module gopmod.
(** [*gopmod.Module], by what [load.go] asks of it. *)
Record Module : Type := {
  Path : string;
  HasModfile : bool;
  Root : string;
}.
End gopmod.

Module gox.
(** A generated file; [CheckGopDeps] is the bitmask that the method
    [file.CheckGopDeps(pkg)] reports for it. *)
Record File : Type := { CheckGopDeps : Z }.

(** A compiled package: its files by name. *)
Record Package : Type := { files : list (string * File) }.
End gox.

Module parser.
(** [parser.Config]: [ClassKind] is the module whose method it is, a
    [Filter] sees the name of a file, and [Mode], the same constant at
    both call sites, is left out. *)
Record Config : Type := {
  ClassKind : gopmod.Module;
  Filter : option (string -> bool);
}.

(** What [ParseDirEx] and [ParseEntries] return: the packages by name,
    in the order in which a [range] over the map visits them, the error,
    and the file set with the parsed files registered. *)
Record Result : Type := {
  pkgs : list (string * ast.Package);
  err : option error;
  fset : token.FileSet;
}.
End parser.

(** [types.Importer]: an opaque handle. *)
Definition types_Importer : Type := nat.

Module cl.
(** [cl.Config]; [LookupClass] and [LookupPub] are both taken from the
    module, which stands for them. *)
Record Config : Type := {
  Fset : token.FileSet;
  RelativeBase : string;
  Importer : types_Importer;
  LookupClass : gopmod.Module;
  LookupPub : gopmod.Module;
}.
End cl.

(** The functions and constants of other packages that [load.go] uses,
    and the constant [gopMod] of package [gop], which [load.go] does not
    declare. *)
Class Collaborators : Type := {
  (** the module path of Go+ itself *)
  gopMod : string;
  (** [gopmod.ErrNotFound] *)
  gopmod_ErrNotFound : error;
  (** [gopmod.Load(dir)] *)
  gopmod_Load : string -> option gopmod.Module * option error;
  (** [gopmod.IsNotFound(err)] *)
  gopmod_IsNotFound : error -> bool;
  (** [gopmod.Default] *)
  gopmod_Default : gopmod.Module;
  (** [mod.ImportClasses()] *)
  Module_ImportClasses : gopmod.Module -> option error;
  (** [mod.SaveWithGopMod(gop, flags)], which returns an error *)
  Module_SaveWithGopMod : gopmod.Module -> env.Gop -> Z -> option error;
  (** [gopenv.Get()] *)
  gopenv_Get : env.Gop;
  (** [NewImporter(mod, gop, fset)] *)
  NewImporter : gopmod.Module -> env.Gop -> token.FileSet -> types_Importer;
  (** the directory that [os.Getwd()] returns *)
  os_Getwd : string;
  (** [parser.ParseDirEx(fset, dir, conf)] *)
  parser_ParseDirEx : token.FileSet -> string -> parser.Config -> parser.Result;
  (** [parser.ParseEntries(fset, files, conf)] *)
  parser_ParseEntries :
    token.FileSet -> list string -> parser.Config -> parser.Result;
  (** [cl.NewPackage(pkgPath, pkg, conf)] *)
  cl_NewPackage :
    string -> ast.Package -> cl.Config -> option gox.Package * option error;
}.

(** ** State: the caller's memory and the calls that leave the pipeline *)

Definition loc : Type := nat.

Inductive Event : Type :=
| EvStderr (line : string)
    (** [fmt.Fprintln(os.Stderr, ...)] *)
| EvNewPackage (pkg : ast.Package) (res : option gox.Package * option error)
    (** a call of [cl.NewPackage] on [pkg] and what it returned *)
| EvSaveWithGopMod (flags : Z) (res : option error)
    (** a call of [mod.SaveWithGopMod(gop, flags)] and what it returned *).

Record State : Type := {
  heap : gmap loc Z;       (** the ints behind the caller's pointers *)
  trace : list Event;      (** the calls made so far, oldest first *)
}.

Definition M (A : Type) : Type := State -> outcome A * State.

#[global] Instance M_ret : MRet M := fun A a st => (Ret a, st).
#[global] Instance M_bind : MBind M := fun A B f m st =>
  match m st with
  | (Ret a, st') => f a st'
  | (Panic msg, st') => (Panic msg, st')
  end.

Definition lift {A} (o : outcome A) : M A := fun st => (o, st).
Definition emit (e : Event) : M unit := fun st =>
  (Ret tt, {| heap := heap st; trace := trace st ++ [e] |}).
Definition store (l : loc) (v : Z) : M unit := fun st =>
  (Ret tt, {| heap := <[l := v]> (heap st); trace := trace st |}).

(** ** Configuration *)

Record Config : Type := {
  Gop : option env.Gop;
  Fset : option token.FileSet;
  Mod : option gopmod.Module;
  Importer : option types_Importer;
  Filter : option (string -> bool);
  GopDeps : option loc;
  IgnoreNotatedError : bool;
  DontUpdateGoMod : bool;
}.

(** [new(Config)]. *)
Definition new_Config : Config :=
  {| Gop := None; Fset := None; Mod := None; Importer := None;
     Filter := None; GopDeps := None;
     IgnoreNotatedError := false; DontUpdateGoMod := false |}.

(** What [LoadDir] returns. *)
Record Loaded : Type := {
  out : option gox.Package;
  test : option gox.Package;
  err : option error;
}.

Section Load.
Context `{C : Collaborators}.

Definition ErrNotFound : error := gopmod_ErrNotFound.

(** [LoadMod] loads a Go+ module from a specified directory. *)
Definition LoadMod (dir : string) : option gopmod.Module * option error :=
  let '(mod_, err) := gopmod_Load dir in
  let import_classes :=
    let mod_ := default gopmod_Default mod_ in
    match Module_ImportClasses mod_ with
    | Some e =>
        (Some mod_, Some (errors.NewWith e "mod.ImportClasses()"
                            "(*gopmod.Module).ImportClasses"))
    | None => (Some mod_, None)
    end in
  match err with
  | Some e =>
      if negb (gopmod_IsNotFound e)
      then (mod_, Some (errors.NewWith e "gopmod.Load(dir, 0)" "gopmod.Load"))
      else import_classes
  | None => import_classes
  end.

(** [pkg.ForEachFile] with the callback of [checkGopDeps]: the flags of
    every file are or-ed into [flags]. *)
Fixpoint ForEachFile_or (fs : list (string * gox.File)) (flags : Z) : Z :=
  match fs with
  | [] => flags
  | (_, file) :: fs' => ForEachFile_or fs' (Z.lor flags (gox.CheckGopDeps file))
  end.

(** [checkGopDeps]; a nil package is dereferenced by [ForEachFile]. *)
Definition checkGopDeps (pkg : option gox.Package) : outcome Z :=
  match pkg with
  | Some p => Ret (ForEachFile_or (gox.files p) 0)
  | None => Panic "nil pointer dereference"
  end.

Definition relativeBaseOf (mod_ : gopmod.Module) : string :=
  if gopmod.HasModfile mod_ then gopmod.Root mod_ else os_Getwd.

Definition afterLoad (mod_ : gopmod.Module) (gop : env.Gop)
    (out test : option gox.Package) (conf : Config) : M unit :=
  if String.eqb (gopmod.Path mod_) gopMod then mret tt
  else
    let updateMod := negb (DontUpdateGoMod conf) && gopmod.HasModfile mod_ in
    if updateMod || bool_decide (is_Some (GopDeps conf)) then
      flags ← lift (checkGopDeps out);
      _ ← match GopDeps conf with
          | Some p => store p flags
          | None => mret tt
          end;
      if updateMod then
        flags ← match test with
                | Some _ =>
                    t ← lift (checkGopDeps test);
                    mret (Z.lor flags t)
                | None => mret flags
                end;
        if negb (flags =? 0)
        then emit (EvSaveWithGopMod flags (Module_SaveWithGopMod mod_ gop flags))
        else mret tt
      else mret tt
    else mret tt.

(** The call [cl.NewPackage("", pkg, clConf)]. *)
Definition NewPackage (pkg : ast.Package) (clConf : cl.Config)
  : M (option gox.Package * option error) :=
  let r := cl_NewPackage "" pkg clConf in
  _ ← emit (EvNewPackage pkg r);
  mret r.

(** How the [range] loop of [LoadDir] ends: by one of its [return]
    statements, or by running out of packages. *)
Inductive loop_end : Type :=
| Returned (r : Loaded)
| Finished (out : option gox.Package) (pkgTest : option ast.Package).

(** The loop [for name, pkg := range pkgs] of [LoadDir], on the packages
    in the order of the visit; [out] and [pkgTest] are the variables of
    that name. *)
Fixpoint LoadDir_loop (dir : string) (conf : Config) (fset : token.FileSet)
    (clConf : cl.Config) (promptGenGo : list bool)
    (pkgs : list (string * ast.Package))
    (out : option gox.Package) (pkgTest : option ast.Package)
  : M loop_end :=
  match pkgs with
  | [] => mret (Finished out pkgTest)
  | (name, pkg) :: pkgs' =>
      if strings.HasSuffix name "_test" then
        match pkgTest with
        | Some _ => mret (Returned {| out := None; test := None;
                                      err := Some ErrMultiTestPackges |})
        | None =>
            LoadDir_loop dir conf fset clConf promptGenGo pkgs' out (Some pkg)
        end
      else
        match out with
        | Some _ => mret (Returned {| out := None; test := None;
                                      err := Some ErrMultiPackges |})
        | None =>
            if (size (ast.Files pkg) =? 0)%nat then
              LoadDir_loop dir conf fset clConf promptGenGo pkgs' out pkgTest
            else
              _ ← (if match promptGenGo with b :: _ => b | [] => false end
                   then emit (EvStderr ("GenGo " +:+ dir +:+ " ..."))
                   else mret tt);
              r ← NewPackage pkg clConf;
              match r.2 with
              | Some e =>
                  e' ← (if IgnoreNotatedError conf
                        then lift (ignNotatedErrs e pkg fset)
                        else mret e);
                  mret (Returned {| out := r.1; test := None; err := Some e' |})
              | None =>
                  LoadDir_loop dir conf fset clConf promptGenGo pkgs' r.1 pkgTest
              end
        end
  end.

(** [LoadDir] loads Go+ packages from a specified directory.
    [promptGenGo] is the variadic argument list, nil when there is no
    argument.  [LoadMod] returns no nil module without an error, so the
    last case of the final [match] does not occur. *)
Definition LoadDir (dir : string) (conf : option Config) (genTestPkg : bool)
    (promptGenGo : list bool) : M Loaded :=
  let conf := default new_Config conf in
  let failed e := mret {| out := None; test := None; err := Some e |} in
  let run (mod_ : gopmod.Module) : M Loaded :=
    let fset := default [] (Fset conf) in
    let parsed := parser_ParseDirEx fset dir
                    {| parser.ClassKind := mod_; parser.Filter := Filter conf |} in
    let fset := parser.fset parsed in
    match parser.err parsed with
    | Some e => failed e
    | None =>
        if (length (parser.pkgs parsed) =? 0)%nat then failed ErrNotFound
        else
          let gop := default gopenv_Get (Gop conf) in
          let imp := default (NewImporter mod_ gop fset) (Importer conf) in
          let clConf := {| cl.Fset := fset;
                           cl.RelativeBase := relativeBaseOf mod_;
                           cl.Importer := imp;
                           cl.LookupClass := mod_;
                           cl.LookupPub := mod_ |} in
          l ← LoadDir_loop dir conf fset clConf promptGenGo
                (parser.pkgs parsed) None None;
          match l with
          | Returned r => mret r
          | Finished None _ => failed ErrNotFound
          | Finished (Some o) pkgTest =>
              r ← match pkgTest with
                  | Some pt =>
                      if genTestPkg then NewPackage pt clConf
                      else mret (None, None)
                  | None => mret (None, None)
                  end;
              _ ← afterLoad mod_ gop (Some o) r.1 conf;
              mret {| out := Some o; test := r.1; err := r.2 |}
          end
    end in
  match Mod conf with
  | Some mod_ => run mod_
  | None =>
      match LoadMod dir with
      | (_, Some e) => failed (errors.NewWith e "LoadMod(dir)" "gop.LoadMod")
      | (Some mod_, None) => run mod_
      | (None, None) => lift (Panic "nil pointer dereference")
      end
  end.

(** [LoadFiles] loads a Go+ package from specified files. *)
Definition LoadFiles (dir : string) (files : list string) (conf : option Config)
  : M (option gox.Package * option error) :=
  let conf := default new_Config conf in
  let run (mod_ : gopmod.Module) : M (option gox.Package * option error) :=
    let fset := default [] (Fset conf) in
    let parsed := parser_ParseEntries fset files
                    {| parser.ClassKind := mod_; parser.Filter := Filter conf |} in
    let fset := parser.fset parsed in
    match parser.err parsed with
    | Some e =>
        mret (None, Some (errors.NewWith e
                "parser.ParseFiles(fset, files, parser.ParseComments)"
                "parser.ParseFiles"))
    | None =>
        match parser.pkgs parsed with
        | [(_, pkg)] =>
            let gop := default gopenv_Get (Gop conf) in
            let imp := default (NewImporter mod_ gop fset) (Importer conf) in
            let clConf := {| cl.Fset := fset;
                             cl.RelativeBase := relativeBaseOf mod_;
                             cl.Importer := imp;
                             cl.LookupClass := mod_;
                             cl.LookupPub := mod_ |} in
            r ← NewPackage pkg clConf;
            err ← match r.2 with
                  | Some e =>
                      if IgnoreNotatedError conf
                      then e' ← lift (ignNotatedErrs e pkg fset); mret (Some e')
                      else mret (Some e)
                  | None => mret None
                  end;
            _ ← afterLoad mod_ gop r.1 None conf;
            mret (r.1, err)
        | _ =>
            mret (None, Some (errors.NewWith ErrMultiPackges
                                "len(pkgs) != 1" "!="))
        end
    end in
  match Mod conf with
  | Some mod_ => run mod_
  | None =>
      match LoadMod dir with
      | (_, Some e) =>
          mret (None, Some (errors.NewWith e "LoadMod(dir)" "gop.LoadMod"))
      | (Some mod_, None) => run mod_
      | (None, None) => lift (Panic "nil pointer dereference")
      end
  end.

End Load.

(** ** The helpers of [load.go] around the loaders *)

Module path.

(** The loop of [path.Ext]: [r] holds the bytes of the path that are
    still to visit, the last one first, and [ext] the bytes visited. *)
Fixpoint Ext_loop (r ext : list ascii) : list ascii :=
  match r with
  | [] => []
  | c :: r' =>
      if Ascii.eqb c "/" then []
      else if Ascii.eqb c "." then c :: ext
      else Ext_loop r' (c :: ext)
  end.

(** [path.Ext(path)]: the suffix that begins at the last dot of the last
    element of the path, empty when that element has no dot. *)
Definition Ext (p : string) : string :=
  string_of_list_ascii (Ext_loop (rev (list_ascii_of_string p)) []).

End path.

(** [FilterNoTestFiles] filters to skip all testing files; of the
    [fs.FileInfo] it reads the name. *)
Definition FilterNoTestFiles (fname : string) : bool :=
  let ext := path.Ext fname in
  if String.eqb ext ".gox" then negb (strings.HasSuffix fname "test.gox")
  else if String.eqb ext ".gop" then negb (strings.HasSuffix fname "_test.gop")
  else if String.eqb ext ".go" then negb (strings.HasSuffix fname "_test.go")
  else true.

(** [IgnoreNotated] returns if cause err is [ErrIgnoreNotated] or not.  The
    comparison of the two interface values holds when the cause is the
    sentinel itself; values of [errors.New] are told apart by their
    message. *)
Definition IgnoreNotated (err : error) : bool :=
  match errors.Err err, ErrIgnoreNotated with
  | errorString a, errorString b => String.eqb a b
  | _, _ => false
  end.

Section Defaults.
Context `{C : Collaborators}.

(** [NotFound] returns if cause err is [ErrNotFound] or not. *)
Definition NotFound (err : error) : bool := gopmod_IsNotFound err.

(** [NewDefaultConf] creates a default configuration for common cases.
    [token.NewFileSet()] is the empty file set. *)
Definition NewDefaultConf (dir : string) (noTestFile : bool)
  : outcome (option Config * option error) :=
  match LoadMod dir with
  | (_, Some e) => Ret (None, Some e)
  | (Some mod_, None) =>
      let gop := gopenv_Get in
      let fset : token.FileSet := [] in
      let imp := NewImporter mod_ gop fset in
      Ret (Some {| Gop := Some gop; Fset := Some fset; Mod := Some mod_;
                   Importer := Some imp;
                   Filter := if noTestFile then Some FilterNoTestFiles else None;
                   GopDeps := None;
                   IgnoreNotatedError := false; DontUpdateGoMod := false |},
           None)
  | (None, None) => Panic "nil pointer dereference"
  end.

End Defaults.

(** * Specification *)

(** ** Occurrences in byte strings *)

(** [sub] occurs in [s] at offset [n]. *)
Definition occurs_at (sub s : string) (n : nat) : Prop :=
  exists pre post, s = pre +:+ sub +:+ post /\ String.length pre = n.

Definition contains (sub s : string) : Prop := exists n, occurs_at sub s n.

(** [text] is the bytes of [code] at the offsets [lo <= o < hi]. *)
Definition bytes_in (code : string) (lo hi : Z) (text : string) : Prop :=
  exists pre post, code = pre +:+ text +:+ post /\
    Z.of_nat (String.length pre) = lo /\ Z.of_nat (String.length text) = hi - lo.

(** ** What a notated error is *)

(** The line of [f] that contains [p] runs from offset [start] to [end_]:
    [start] is the last line start at or before [p], and [end_] is the
    next line start, or the size of the file for the last line. *)
Definition line_range (f : token.File) (p : token.Pos) (start end_ : Z) : Prop :=
  exists i : nat,
    token.lines f !! i = Some start /\ start <= p - token.base f /\
    match token.lines f !! S i with
    | Some next => p - token.base f < next /\ end_ = next
    | None => end_ = token.size f
    end.

(** The position [p] is a position of the file [f]. *)
Definition in_file (f : token.File) (p : token.Pos) : Prop :=
  p <> token.NoPos /\ token.base f <= p <= token.base f + token.size f.

(** The error's position is in a file of the file set, the package has a
    parsed file of that name, the line of the position contains a
    line-comment marker, and what follows the first marker contains
    [compile error:]. *)
Definition notated (err : error) (pkg : ast.Package) (fset : token.FileSet) : Prop :=
  exists f gopf start end_ text pre rest,
    f ∈ fset /\ in_file f (ErrorPos err) /\
    ast.Files pkg !! token.name f = Some gopf /\
    line_range f (ErrorPos err) start end_ /\
    bytes_in (ast.Code gopf) start end_ text /\
    text = pre +:+ "//" +:+ rest /\
    (forall m, (m < String.length pre)%nat -> ~ occurs_at "//" text m) /\
    contains "compile error:" rest.

(** The invariants of a [token.File]: the line table starts with offset 0,
    increases strictly and stays within the file. *)
Definition wf_File (f : token.File) : Prop :=
  token.lines f !! 0%nat = Some 0 /\
  StronglySorted Z.lt (token.lines f) /\
  Forall (fun o => o <= token.size f) (token.lines f).

(** The invariants of a [token.FileSet]: its files are well formed, and
    each begins after the end of the one before. *)
Definition wf_FileSet (fset : token.FileSet) : Prop :=
  Forall wf_File fset /\
  StronglySorted (fun f g => token.base f + token.size f < token.base g) fset.

(** The parsed files of [pkg] hold the text of the files registered under
    their names. *)
Definition wf_Package (pkg : ast.Package) (fset : token.FileSet) : Prop :=
  forall f gopf, f ∈ fset -> ast.Files pkg !! token.name f = Some gopf ->
    token.size f <= Z.of_nat (String.length (ast.Code gopf)).

(** The classification as a boolean. *)
Definition notatedb (pkg : ast.Package) (fset : token.FileSet) (err : error) : bool :=
  match isNotatedErr err pkg fset with
  | Ret b => b
  | Panic _ => false
  end.

(** ** Events of a run *)

(** A package whose name has the test suffix. *)
Definition is_test (pkg : ast.Package) : bool :=
  strings.HasSuffix (ast.Name pkg) "_test".

(** [st] after the events [evs]. *)
Definition after (st : State) (evs : list Event) : State :=
  {| heap := heap st; trace := trace st ++ evs |}.

(** What [LoadDir] writes to the standard error before a compile. *)
Definition prompt_events (dir : string) (promptGenGo : list bool) : list Event :=
  if match promptGenGo with b :: _ => b | [] => false end
  then [EvStderr ("GenGo " +:+ dir +:+ " ...")]
  else [].

(** The result of a load whose hook ended with [x]. *)
Definition after_hook {A} (x : outcome unit) (a : A) : outcome A :=
  match x with
  | Ret _ => Ret a
  | Panic msg => Panic msg
  end.

(** From [st] to [st'], of the caller's memory at most the [GopDeps] slot
    has changed, and [SaveWithGopMod] has been called at most once, as the
    last call. *)
Definition load_frame (conf : Config) (st st' : State) : Prop :=
  (forall l, GopDeps conf <> Some l -> heap st' !! l = heap st !! l) /\
  exists evs, trace st' = trace st ++ evs /\
    forall flags res, EvSaveWithGopMod flags res ∈ evs ->
      exists pre, evs = pre ++ [EvSaveWithGopMod flags res] /\
        forall f r, EvSaveWithGopMod f r ∉ pre.

(** An event without what [SaveWithGopMod] returned. *)
Definition forget_save (e : Event) : Event :=
  match e with
  | EvSaveWithGopMod flags _ => EvSaveWithGopMod flags None
  | _ => e
  end.

(** Two states that differ at most in what [SaveWithGopMod] returned. *)
Definition same_but_save (st1 st2 : State) : Prop :=
  heap st1 = heap st2 /\ forget_save <$> trace st1 = forget_save <$> trace st2.

(** Two computations that, from such states, end with the same outcome
    in such states. *)
Definition sim {A} (m1 m2 : M A) : Prop :=
  forall st1 st2, same_but_save st1 st2 ->
    (m1 st1).1 = (m2 st2).1 /\ same_but_save (m1 st1).2 (m2 st2).2.

(** The collaborators [C] with another [SaveWithGopMod]. *)
Definition with_save (C : Collaborators)
    (save : gopmod.Module -> env.Gop -> Z -> option error) : Collaborators :=
  {| gopMod := @gopMod C;
     gopmod_ErrNotFound := @gopmod_ErrNotFound C;
     gopmod_Load := @gopmod_Load C;
     gopmod_IsNotFound := @gopmod_IsNotFound C;
     gopmod_Default := @gopmod_Default C;
     Module_ImportClasses := @Module_ImportClasses C;
     Module_SaveWithGopMod := save;
     gopenv_Get := @gopenv_Get C;
     NewImporter := @NewImporter C;
     os_Getwd := @os_Getwd C;
     parser_ParseDirEx := @parser_ParseDirEx C;
     parser_ParseEntries := @parser_ParseEntries C;
     cl_NewPackage := @cl_NewPackage C |}.

Section LoadSpec.
Context `{C : Collaborators}.

(** The module a load works with: the configured one, or the one
    [LoadMod] finds. *)
Definition resolve_Mod (conf : Config) (dir : string) : option gopmod.Module :=
  match Mod conf with
  | Some m => Some m
  | None =>
      match LoadMod dir with
      | (Some m, None) => Some m
      | _ => None
      end
  end.

(** The [parser.Config] that both loaders build. *)
Definition parserConf_of (conf : Config) (m : gopmod.Module) : parser.Config :=
  {| parser.ClassKind := m; parser.Filter := Filter conf |}.

(** The environment a load works with. *)
Definition gop_of (conf : Config) : env.Gop := default gopenv_Get (Gop conf).

(** The [cl.Config] that both loaders build. *)
Definition clConf_of (conf : Config) (m : gopmod.Module) (fset : token.FileSet)
  : cl.Config :=
  {| cl.Fset := fset;
     cl.RelativeBase := relativeBaseOf m;
     cl.Importer :=
       default (NewImporter m (gop_of conf) fset) (Importer conf);
     cl.LookupClass := m;
     cl.LookupPub := m |}.

(** The flags of a compiled package: those of its files, or-ed. *)
Definition flags_of (p : gox.Package) : Z := ForEachFile_or (gox.files p) 0.

(** The state in which [afterLoad] leaves a compiled package [o]. *)
Definition afterLoad_state (mod_ : gopmod.Module) (gop : env.Gop)
    (o : gox.Package) (test : option gox.Package) (conf : Config)
    (st : State) : State :=
  if String.eqb (gopmod.Path mod_) gopMod then st
  else
    let total := Z.lor (flags_of o) (from_option flags_of 0 test) in
    {| heap := match GopDeps conf with
               | Some p => <[p := flags_of o]> (heap st)
               | None => heap st
               end;
       trace := trace st ++
         if negb (DontUpdateGoMod conf) && gopmod.HasModfile mod_
            && negb (total =? 0)
         then [EvSaveWithGopMod total (Module_SaveWithGopMod mod_ gop total)]
         else [] |}.

(** [LoadDir] after its loop: the test package is compiled if it is
    asked for and there is one, and the hook runs. *)
Definition LoadDir_tail (conf : Config) (genTestPkg : bool)
    (mod_ : gopmod.Module) (clConf : cl.Config) (l : loop_end) : M Loaded :=
  match l with
  | Returned r => mret r
  | Finished None _ =>
      mret {| out := None; test := None; err := Some ErrNotFound |}
  | Finished (Some o) pkgTest =>
      r ← match pkgTest with
          | Some pt =>
              if genTestPkg then NewPackage pt clConf else mret (None, None)
          | None => mret (None, None)
          end;
      _ ← afterLoad mod_ (gop_of conf) (Some o) r.1 conf;
      mret {| out := Some o; test := r.1; err := r.2 |}
  end.

(** [LoadDir] from the point where the module is known. *)
Definition LoadDir_parsed (dir : string) (conf : Config) (genTestPkg : bool)
    (promptGenGo : list bool) (mod_ : gopmod.Module) : M Loaded :=
  let parsed := parser_ParseDirEx (default [] (Fset conf)) dir
                  (parserConf_of conf mod_) in
  let clConf := clConf_of conf mod_ (parser.fset parsed) in
  match parser.err parsed with
  | Some e => mret {| out := None; test := None; err := Some e |}
  | None =>
      if (length (parser.pkgs parsed) =? 0)%nat
      then mret {| out := None; test := None; err := Some ErrNotFound |}
      else
        l ← LoadDir_loop dir conf (parser.fset parsed) clConf promptGenGo
              (parser.pkgs parsed) None None;
        LoadDir_tail conf genTestPkg mod_ clConf l
  end.

(** How [LoadFiles] reconciles the error of the compile. *)
Definition LoadFiles_reconcile (conf : Config) (pkg : ast.Package)
    (fset : token.FileSet) (e : option error) : M (option error) :=
  match e with
  | Some e =>
      if IgnoreNotatedError conf
      then e' ← lift (ignNotatedErrs e pkg fset); mret (Some e')
      else mret (Some e)
  | None => mret None
  end.

(** [LoadFiles] from the point where the module is known. *)
Definition LoadFiles_parsed (files : list string) (conf : Config)
    (mod_ : gopmod.Module) : M (option gox.Package * option error) :=
  let parsed := parser_ParseEntries (default [] (Fset conf)) files
                  (parserConf_of conf mod_) in
  let clConf := clConf_of conf mod_ (parser.fset parsed) in
  match parser.err parsed with
  | Some e =>
      mret (None, Some (errors.NewWith e
              "parser.ParseFiles(fset, files, parser.ParseComments)"
              "parser.ParseFiles"))
  | None =>
      match parser.pkgs parsed with
      | [(_, pkg)] =>
          r ← NewPackage pkg clConf;
          err ← LoadFiles_reconcile conf pkg (parser.fset parsed) r.2;
          _ ← afterLoad mod_ (gop_of conf) r.1 None conf;
          mret (r.1, err)
      | _ =>
          mret (None, Some (errors.NewWith ErrMultiPackges
                              "len(pkgs) != 1" "!="))
      end
  end.

(** The parser files a package under its declared name. *)
Definition keyed_by_name : Prop :=
  forall fset dir pc,
    Forall (fun np : string * ast.Package => ast.Name np.2 = np.1)
      (parser.pkgs (parser_ParseDirEx fset dir pc)).

End LoadSpec.

(** ** A small project *)

Module Demo.

Definition mod_ : gopmod.Module :=
  {| gopmod.Path := "example.com/demo"; gopmod.HasModfile := true;
     gopmod.Root := "/demo" |}.
Definition gop : env.Gop := {| env.Version := "1.1"; env.Root := "/gop" |}.

(** Two files of one source line each, with an error announced in the
    comment of the line. *)
Definition src : string := "x := undefinedSymbol // compile error: undefined".
Definition src_test : string :=
  "y := undefinedSymbol // compile error: undefined".
Definition file : token.File :=
  {| token.name := "/demo/a.gop"; token.base := 1;
     token.size := 48; token.lines := [0] |}.
Definition file_test : token.File :=
  {| token.name := "/demo/a_test.gop"; token.base := 50;
     token.size := 48; token.lines := [0] |}.
Definition fset : token.FileSet := [file; file_test].

Definition main : ast.Package :=
  {| ast.Name := "main";
     ast.Files := {[ "/demo/a.gop" := {| ast.Code := src |} ]} |}.
Definition main_test : ast.Package :=
  {| ast.Name := "main_test";
     ast.Files := {[ "/demo/a_test.gop" := {| ast.Code := src_test |} ]} |}.
(** A package without Go+ files. *)
Definition aux : ast.Package := {| ast.Name := "aux"; ast.Files := ∅ |}.

Definition out01 : gox.Package :=
  {| gox.files := [("a.go", {| gox.CheckGopDeps := 1 |})] |}.
Definition out10 : gox.Package :=
  {| gox.files := [("a_test.go", {| gox.CheckGopDeps := 2 |})] |}.

(** The errors of the two source lines. *)
Definition undefined : error := CodeError 6 "undefined: undefinedSymbol".
Definition undefined_test : error := CodeError 55 "undefined: undefinedSymbol".

(** Collaborators that parse to [pkgs], compile with [compile] and
    save with [save]. *)
Definition world (pkgs : list (string * ast.Package))
    (compile : ast.Package -> option gox.Package * option error)
    (save : Z -> option error) : Collaborators :=
  {| gopMod := "github.com/goplus/gop";
     gopmod_ErrNotFound := errors.New "not found";
     gopmod_Load := fun _ => (Some mod_, None);
     gopmod_IsNotFound := fun _ => false;
     gopmod_Default := mod_;
     Module_ImportClasses := fun _ => None;
     Module_SaveWithGopMod := fun _ _ flags => save flags;
     gopenv_Get := gop;
     NewImporter := fun _ _ _ => 0%nat;
     os_Getwd := "/";
     parser_ParseDirEx := fun _ _ _ =>
       {| parser.pkgs := pkgs; parser.err := None; parser.fset := fset |};
     parser_ParseEntries := fun _ _ _ =>
       {| parser.pkgs := pkgs; parser.err := None; parser.fset := fset |};
     cl_NewPackage := fun _ pkg _ => compile pkg |}.

(** Both packages compile. *)
Definition compile_ok (pkg : ast.Package) : option gox.Package * option error :=
  if is_test pkg then (Some out10, None) else (Some out01, None).

(** The test package fails with the announced error. *)
Definition compile_test_fails (pkg : ast.Package)
  : option gox.Package * option error :=
  if is_test pkg then (Some out10, Some undefined_test) else (Some out01, None).

(** The production package fails with the announced error. *)
Definition compile_main_fails (pkg : ast.Package)
  : option gox.Package * option error :=
  if is_test pkg then (Some out10, None) else (None, Some undefined).

Definition save_ok (flags : Z) : option error := None.
Definition save_fails (flags : Z) : option error :=
  Some (errors.New "permission denied").

Definition conf (slot : option loc) (ign : bool) : Config :=
  {| Gop := None; Fset := None; Mod := None; Importer := None; Filter := None;
     GopDeps := slot; IgnoreNotatedError := ign; DontUpdateGoMod := false |}.

Definition st0 : State := {| heap := ∅; trace := [] |}.

Definition both : list (string * ast.Package) :=
  [("main", main); ("main_test", main_test)].

End Demo.

(** ** Further notions *)

(** The name [s] ends with [suffix]. *)
Definition ends_with (s suffix : string) : Prop := exists pre, s = pre +:+ suffix.

(** A byte of an extension: neither a dot nor a slash. *)
Definition ext_byte (c : ascii) : Prop := c <> "/"%char /\ c <> "."%char.

(** An event that the loop of [LoadDir] may add: a compile, or the line
    for the standard error when the caller asked for it. *)
Definition loop_event (dir : string) (promptGenGo : list bool) (ev : Event) : Prop :=
  (exists pkg res, ev = EvNewPackage pkg res) \/
  (ev = EvStderr ("GenGo " +:+ dir +:+ " ...") /\ head promptGenGo = Some true).

(** A map entry that the loop of [LoadDir] does not compile: a test
    package, or a package without Go+ files. *)
Definition unusable (np : string * ast.Package) : Prop :=
  strings.HasSuffix np.1 "_test" = true \/ size (ast.Files np.2) = 0%nat.

(** The map entries whose name has the test suffix. *)
Definition test_entries (pkgs : list (string * ast.Package))
  : list (string * ast.Package) :=
  filter (fun np => strings.HasSuffix np.1 "_test" = true) pkgs.

(** The number of frames of [errors.NewWith] around the cause. *)
Fixpoint frame_depth (e : error) : nat :=
  match e with
  | Frame e' _ _ => S (frame_depth e')
  | _ => 0
  end.

(** ** The small project, continued *)

Module Demo2.

(** A second test package of the directory. *)
Definition other_test : ast.Package :=
  {| ast.Name := "other_test"; ast.Files := ∅ |}.

(** The production package fails with a list of one announced error. *)
Definition compile_main_fails_list (pkg : ast.Package)
  : option gox.Package * option error :=
  if is_test pkg then (Some Demo.out10, None)
  else (None, Some (List [Demo.undefined])).

Definition syntax_error : error := errors.New "a.gop:1:1: expected operand".

(** Collaborators whose parser fails. *)
Definition world_parse_error : Collaborators :=
  {| gopMod := "github.com/goplus/gop";
     gopmod_ErrNotFound := errors.New "not found";
     gopmod_Load := fun _ => (Some Demo.mod_, None);
     gopmod_IsNotFound := fun _ => false;
     gopmod_Default := Demo.mod_;
     Module_ImportClasses := fun _ => None;
     Module_SaveWithGopMod := fun _ _ _ => None;
     gopenv_Get := Demo.gop;
     NewImporter := fun _ _ _ => 0%nat;
     os_Getwd := "/";
     parser_ParseDirEx := fun fset _ _ =>
       {| parser.pkgs := []; parser.err := Some syntax_error;
          parser.fset := fset |};
     parser_ParseEntries := fun fset _ _ =>
       {| parser.pkgs := []; parser.err := Some syntax_error;
          parser.fset := fset |};
     cl_NewPackage := fun _ _ _ => (None, None) |}.

(** The calls of a load of the two packages with a manifest update. *)
Definition calls : list Event :=
  [EvNewPackage Demo.main (Some Demo.out01, None);
   EvNewPackage Demo.main_test (Some Demo.out10, None);
   EvSaveWithGopMod 3 None].

End Demo2.

(** * Proofs *)

#[local] Arguments String.append !_ _ / : simpl nomatch.


(** ** The model on small inputs *)

Example Index_found : strings.Index "a := b // c" "//" = 7.
Proof. reflexivity. Qed.

Example Index_missing : strings.Index "a := b / c" "//" = -1.
Proof. reflexivity. Qed.

Example slice_line : strings.slice "ab;cd;ef" 3 6 = Ret "cd;".
Proof. reflexivity. Qed.

Example slice_out_of_range :
  strings.slice "abc" 2 4 = Panic "slice bounds out of range".
Proof. reflexivity. Qed.

Example HasSuffix_test : strings.HasSuffix "main_test" "_test" = true.
Proof. reflexivity. Qed.

Example HasSuffix_short : strings.HasSuffix "test" "_test" = false.
Proof. reflexivity. Qed.

Example File_Line_second :
  token.File_Line {| token.name := "a.gop"; token.base := 10; token.size := 9;
                     token.lines := [0; 4; 7] |} 15 = 2.
Proof. reflexivity. Qed.

Example FileSet_File_NoPos : token.FileSet_File Demo.fset token.NoPos = None.
Proof. reflexivity. Qed.

Example Demo_src_size :
  Z.of_nat (String.length Demo.src) = token.size Demo.file.
Proof. reflexivity. Qed.

Example isNotatedErr_Demo :
  isNotatedErr Demo.undefined Demo.main Demo.fset = Ret true /\
  isNotatedErr Demo.undefined_test Demo.main_test Demo.fset = Ret true /\
  isNotatedErr (errors.New "no position") Demo.main Demo.fset = Ret false /\
  isNotatedErr Demo.undefined_test Demo.main Demo.fset = Ret false.
Proof. repeat split. Qed.

Example checkGopDeps_or :
  checkGopDeps (Some {| gox.files := [("a.go", {| gox.CheckGopDeps := 1 |});
                                      ("b.go", {| gox.CheckGopDeps := 4 |})] |})
  = Ret 5.
Proof. reflexivity. Qed.

(** ** Byte strings *)

Lemma HasPrefix_spec s p :
  strings.HasPrefix s p = true <-> exists post, s = p +:+ post.
Proof.
  revert s. induction p as [|c p IH]; intros s; simpl.
  - split; eauto.
  - destruct s as [|d s].
    + split; [discriminate | intros [post H]; discriminate].
    + destruct (Ascii.eqb_spec c d) as [->|Hne].
      * rewrite IH. split; intros [post H]; exists post; simpl in *; congruence.
      * split; [discriminate | intros [post H]; simpl in H; congruence].
Qed.

Lemma occurs_at_0 sub s : occurs_at sub s 0 <-> strings.HasPrefix s sub = true.
Proof.
  rewrite HasPrefix_spec. split.
  - intros (pre & post & -> & Hl). destruct pre; [|discriminate]. eauto.
  - intros [post ->]. exists EmptyString, post. auto.
Qed.

Lemma occurs_at_S sub c s n : occurs_at sub (String c s) (S n) <-> occurs_at sub s n.
Proof.
  split.
  - intros (pre & post & H & Hl). destruct pre as [|d pre]; [discriminate|].
    simpl in *. exists pre, post. split; congruence.
  - intros (pre & post & -> & Hl). exists (String c pre), post. simpl. auto.
Qed.

Lemma occurs_at_nil sub n : occurs_at sub EmptyString n -> n = 0%nat.
Proof.
  intros (pre & post & H & Hl). destruct pre; simpl in *; [lia | discriminate].
Qed.

Lemma find_Some s sub n :
  strings.find s sub = Some n <->
  occurs_at sub s n /\ forall m, (m < n)%nat -> ~ occurs_at sub s m.
Proof.
  revert n. induction s as [|c s IH]; intros n; simpl.
  - destruct (strings.HasPrefix "" sub) eqn:E.
    + split.
      * intros [= <-]. split; [by apply occurs_at_0 | lia].
      * intros [H _]. apply occurs_at_nil in H. by subst.
    + split; [discriminate|]. intros [H _].
      pose proof (occurs_at_nil _ _ H); subst. apply occurs_at_0 in H. congruence.
  - destruct (strings.HasPrefix (String c s) sub) eqn:E.
    + split.
      * intros [= <-]. split; [by apply occurs_at_0 | lia].
      * intros [_ H]. destruct n; [done|]. exfalso. apply (H 0%nat); [lia|].
        by apply occurs_at_0.
    + destruct (strings.find s sub) as [k|] eqn:F; simpl.
      * split.
        -- intros [= <-]. destruct (proj1 (IH k) eq_refl) as [H1 H2]. split.
           ++ by apply occurs_at_S.
           ++ intros [|m] Hm Ho.
              ** apply occurs_at_0 in Ho. congruence.
              ** apply occurs_at_S in Ho. apply (H2 m); [lia | done].
        -- intros [H1 H2]. destruct n as [|n].
           ++ apply occurs_at_0 in H1. congruence.
           ++ assert (Some k = Some n) as [= ->]; [|done]. apply IH. split.
              ** by apply occurs_at_S in H1.
              ** intros m Hm Ho. apply (H2 (S m)); [lia|]. by apply occurs_at_S.
      * split; [discriminate|]. intros [H1 H2]. destruct n as [|n].
        -- apply occurs_at_0 in H1. congruence.
        -- apply occurs_at_S in H1. assert (@None nat = Some n); [|discriminate].
           apply IH. split; [done|]. intros m Hm Ho. apply (H2 (S m)); [lia|].
           by apply occurs_at_S.
Qed.

Lemma find_None s sub : strings.find s sub = None <-> forall n, ~ occurs_at sub s n.
Proof.
  induction s as [|c s IH]; simpl.
  - destruct (strings.HasPrefix "" sub) eqn:E.
    + split; [discriminate|]. intros H. exfalso. apply (H 0%nat). by apply occurs_at_0.
    + split; [|done]. intros _ n Ho. pose proof (occurs_at_nil _ _ Ho); subst.
      apply occurs_at_0 in Ho. congruence.
  - destruct (strings.HasPrefix (String c s) sub) eqn:E.
    + split; [discriminate|]. intros H. exfalso. apply (H 0%nat). by apply occurs_at_0.
    + rewrite fmap_None, IH. split.
      * intros H [|n] Ho.
        -- apply occurs_at_0 in Ho. congruence.
        -- apply occurs_at_S in Ho. by apply (H n).
      * intros H n Ho. apply (H (S n)). by apply occurs_at_S.
Qed.

Lemma Contains_spec s sub : strings.Contains s sub = true <-> contains sub s.
Proof.
  unfold strings.Contains, strings.Index, contains.
  destruct (strings.find s sub) as [n|] eqn:F.
  - apply find_Some in F as [Ho _]. split; [eauto | intros _; apply Z.leb_le; lia].
  - split; [discriminate|]. intros [n Ho]. exfalso. by eapply find_None.
Qed.

Lemma substring_0_app t post :
  String.substring 0 (String.length t) (t +:+ post) = t.
Proof. induction t as [|c t IH]; simpl; [by destruct post | by rewrite IH]. Qed.

Lemma substring_app pre t post :
  String.substring (String.length pre) (String.length t) (pre +:+ t +:+ post) = t.
Proof. induction pre as [|c pre IH]; simpl; [apply substring_0_app | done]. Qed.

Lemma substring_split s n m :
  (n + m <= String.length s)%nat ->
  exists pre post, s = pre +:+ String.substring n m s +:+ post /\
    String.length pre = n /\ String.length (String.substring n m s) = m.
Proof.
  revert n m. induction s as [|c s IH]; intros n m H; simpl in H.
  - assert (n = 0%nat) as -> by lia. assert (m = 0%nat) as -> by lia.
    exists EmptyString, EmptyString. done.
  - destruct n as [|n].
    + destruct m as [|m].
      * exists EmptyString, (String c s). done.
      * destruct (IH 0%nat m) as (pre & post & E & Hl & Hm); [lia|].
        destruct pre; [|discriminate]. simpl in E.
        exists EmptyString, post. simpl. rewrite Hm. split; [congruence | done].
    + destruct (IH n m) as (pre & post & E & Hl & Hm); [lia|].
      exists (String c pre), post. simpl. rewrite Hl, Hm. split; [congruence | done].
Qed.

Lemma string_app_inv_length a b c d :
  a +:+ b = c +:+ d -> String.length a = String.length c -> a = c /\ b = d.
Proof.
  revert c. induction a as [|x a IH]; intros [|y c] H Hl; simpl in *; try discriminate.
  - done.
  - injection H as -> H. destruct (IH c H) as [-> ->]; [lia | done].
Qed.

Lemma string_app_length a b :
  String.length (a +:+ b) = (String.length a + String.length b)%nat.
Proof. induction a; simpl; [done | by rewrite IHa]. Qed.

Lemma string_app_nil_r a : a +:+ "" = a.
Proof. induction a; simpl; [done | by rewrite IHa]. Qed.

Lemma slice_Ret s lo hi :
  0 <= lo -> lo <= hi -> hi <= Z.of_nat (String.length s) ->
  exists t, strings.slice s lo hi = Ret t /\ bytes_in s lo hi t.
Proof.
  intros H1 H2 H3. unfold strings.slice.
  rewrite (proj2 (Z.leb_le _ _) H1), (proj2 (Z.leb_le _ _) H2), (proj2 (Z.leb_le _ _) H3).
  simpl. eexists. split; [done|].
  destruct (substring_split s (Z.to_nat lo) (Z.to_nat (hi - lo))) as (pre & post & E & Hl & Hm);
    [lia|].
  exists pre, post. split; [done|]. lia.
Qed.

Lemma bytes_in_unique s lo hi t t' : bytes_in s lo hi t -> bytes_in s lo hi t' -> t = t'.
Proof.
  intros (pre & post & E & Hl & Hm) (pre' & post' & E' & Hl' & Hm').
  rewrite E in E'. apply string_app_inv_length in E' as [-> E']; [|lia].
  apply string_app_inv_length in E' as [-> _]; [done | lia].
Qed.

Lemma slice_from_after pre sep rest :
  strings.slice_from (pre +:+ sep +:+ rest)
    (Z.of_nat (String.length pre) + Z.of_nat (String.length sep)) = Ret rest.
Proof.
  unfold strings.slice_from.
  destruct (slice_Ret (pre +:+ sep +:+ rest)
              (Z.of_nat (String.length pre) + Z.of_nat (String.length sep))
              (Z.of_nat (String.length (pre +:+ sep +:+ rest)))) as (t & -> & Hb).
  - lia.
  - rewrite !string_app_length. lia.
  - lia.
  - f_equal. destruct Hb as (p & q & E & Hl & Hm).
    assert (pre +:+ sep +:+ rest = (pre +:+ sep) +:+ rest) as E2.
    { clear. induction pre; simpl; [done | by rewrite IHpre]. }
    rewrite E2 in E at 1.
    assert (q = EmptyString) as ->.
    { apply (f_equal String.length) in E. rewrite !string_app_length in *.
      destruct q; [done | simpl in *; lia]. }
    rewrite string_app_nil_r in E.
    apply string_app_inv_length in E as [_ ->]; [done|]. rewrite string_app_length. lia.
Qed.

Lemma searchInts_bounds a x : -1 <= token.searchInts a x < Z.of_nat (length a).
Proof.
  induction a as [|y a IH]; simpl; [lia|].
  destruct (y <=? x); lia.
Qed.

Lemma searchInts_le a x i s :
  StronglySorted Z.lt a -> a !! i = Some s ->
  (s <= x <-> Z.of_nat i <= token.searchInts a x).
Proof.
  intros Hs. revert i. induction Hs as [|y a Hs IH Hy]; intros i Hi; [done|].
  simpl. destruct (Z.leb_spec y x) as [Hyx|Hyx].
  - destruct i as [|i]; simpl in Hi.
    + injection Hi as ->. pose proof (searchInts_bounds a x). lia.
    + rewrite (IH i Hi). lia.
  - assert (y <= s) as Hle.
    { destruct i as [|i]; simpl in Hi; [injection Hi as ->; lia|].
      rewrite Forall_forall in Hy. apply list_elem_of_lookup_2 in Hi.
      apply Hy in Hi. lia. }
    lia.
Qed.

Lemma searchFiles_Some files x f :
  token.searchFiles files x = Some f -> f ∈ files /\ token.base f <= x.
Proof.
  induction files as [|g files IH]; simpl; [done|].
  destruct (Z.leb_spec (token.base g) x) as [Hg|Hg]; [|done].
  destruct (token.searchFiles files x) as [h|].
  - intros [= ->]. destruct IH as [H1 H2]; [done|]. split; [by right | done].
  - intros [= ->]. split; [by left | done].
Qed.

Lemma FileSet_File_Some fset p f :
  token.FileSet_File fset p = Some f ->
  f ∈ fset /\ p <> token.NoPos /\ token.base f <= p <= token.base f + token.size f.
Proof.
  unfold token.FileSet_File. destruct (Z.eqb_spec p token.NoPos) as [|Hp]; [done|].
  destruct (token.searchFiles fset p) as [g|] eqn:E; [|done].
  apply searchFiles_Some in E as [H1 H2].
  destruct (Z.leb_spec p (token.base g + token.size g)); [|done].
  intros [= ->]. auto.
Qed.

Lemma wf_File_size f : wf_File f -> 0 <= token.size f.
Proof.
  intros (H0 & _ & Hb). rewrite Forall_forall in Hb.
  apply Hb. by eapply list_elem_of_lookup_2.
Qed.

Lemma searchFiles_after files x :
  Forall (fun g => x < token.base g) files -> token.searchFiles files x = None.
Proof.
  intros H. destruct H as [|g files Hg _]; simpl; [done|].
  destruct (Z.leb_spec (token.base g) x); [lia | done].
Qed.

(** In a well-formed file set, [s.File(p)] is the file that [p] is a
    position of. *)
Lemma FileSet_File_spec fset p f :
  wf_FileSet fset ->
  token.FileSet_File fset p = Some f <-> f ∈ fset /\ in_file f p.
Proof.
  intros [Hwf Hs]. split; [apply FileSet_File_Some|].
  intros (Hin & Hp & Hr). unfold token.FileSet_File.
  destruct (Z.eqb_spec p token.NoPos) as [|_]; [done|].
  assert (token.searchFiles fset p = Some f) as ->.
  { clear Hp. induction Hs as [|g files Hs IH Hg]; [by apply elem_of_nil in Hin|].
    apply Forall_cons in Hwf as [Hwg Hwf]. apply wf_File_size in Hwg.
    simpl. apply elem_of_cons in Hin as [->|Hin].
    - destruct (Z.leb_spec (token.base g) p); [|lia].
      rewrite searchFiles_after; [done|].
      eapply Forall_impl; [exact Hg|]. simpl. intros h Hh. lia.
    - rewrite Forall_forall in Hg. specialize (Hg f Hin). simpl in Hg.
      destruct (Z.leb_spec (token.base g) p); [|lia].
      by rewrite IH. }
  destruct (Z.leb_spec p (token.base f + token.size f)); [done | lia].
Qed.

Lemma index_int_lookup a (i : nat) x :
  a !! i = Some x -> index_int a (Z.of_nat i) = Ret x.
Proof.
  intros H. unfold index_int. rewrite (proj2 (Z.leb_le 0 _)) by lia.
  by rewrite Nat2Z.id, H.
Qed.

(** On a well-formed file the code's line computation succeeds and yields
    the range of the line that contains the position. *)
Lemma line_range_code f p :
  wf_File f -> p <> token.NoPos -> token.base f <= p <= token.base f + token.size f ->
  let lines := token.Lines f in
  let i := token.File_Line f p - 1 in
  exists start end_,
    index_int lines i = Ret start /\
    (if i + 1 <? Z.of_nat (length lines) then index_int lines (i + 1)
     else Ret (token.File_Size f)) = Ret end_ /\
    line_range f p start end_ /\ 0 <= start <= end_ /\ end_ <= token.size f.
Proof.
  intros (H0 & Hs & Hb) Hp Hr. cbv zeta. unfold token.File_Line, token.Lines, token.File_Size.
  destruct (Z.eqb_spec p token.NoPos) as [|_]; [done|].
  set (off := p - token.base f).
  pose proof (searchInts_bounds (token.lines f) off) as Hk.
  pose proof (proj1 (searchInts_le _ off _ _ Hs H0) ltac:(lia)) as Hk0.
  set (k := token.searchInts (token.lines f) off) in *.
  replace (k + 1 - 1) with (Z.of_nat (Z.to_nat k)) by lia.
  destruct (lookup_lt_is_Some_2 (token.lines f) (Z.to_nat k)) as [start Hst]; [lia|].
  pose proof (proj2 (searchInts_le _ off _ _ Hs Hst) ltac:(lia)) as Hso.
  assert (0 <= start) as Hs0.
  { destruct (Z.to_nat k) as [|j] eqn:Ej; [assert (start = 0) by congruence; lia|].
    destruct (token.lines f) as [|y l] eqn:El; [done|].
    apply StronglySorted_inv in Hs as [_ Hy].
    simpl in H0, Hst. injection H0 as ->. rewrite Forall_forall in Hy.
    apply list_elem_of_lookup_2 in Hst. apply Hy in Hst. lia. }
  exists start. rewrite (index_int_lookup _ _ _ Hst).
  destruct (Z.ltb_spec (Z.of_nat (Z.to_nat k) + 1) (Z.of_nat (length (token.lines f))))
    as [Hlt|Hge].
  - destruct (lookup_lt_is_Some_2 (token.lines f) (S (Z.to_nat k))) as [next Hn]; [lia|].
    exists next. replace (Z.of_nat (Z.to_nat k) + 1) with (Z.of_nat (S (Z.to_nat k))) by lia.
    rewrite (index_int_lookup _ _ _ Hn).
    pose proof (searchInts_le _ off _ _ Hs Hn) as Hno.
    assert (off < next) by lia.
    assert (next <= token.size f).
    { rewrite Forall_forall in Hb. apply Hb. by eapply list_elem_of_lookup_2. }
    split; [done|]. split; [done|]. split; [|lia].
    exists (Z.to_nat k). rewrite Hn. auto.
  - exists (token.size f). split; [done|]. split; [done|]. split; [|lia].
    exists (Z.to_nat k). rewrite (lookup_ge_None_2 _ (S (Z.to_nat k))) by lia. auto.
Qed.

Lemma line_range_unique f p s e s' e' :
  StronglySorted Z.lt (token.lines f) ->
  line_range f p s e -> line_range f p s' e' -> s = s' /\ e = e'.
Proof.
  intros Hs (i & Hi & Hle & Hn) (j & Hj & Hle' & Hn').
  set (off := p - token.base f) in *.
  assert (i = j) as <-.
  { pose proof (proj1 (searchInts_le _ off _ _ Hs Hi) Hle).
    pose proof (proj1 (searchInts_le _ off _ _ Hs Hj) Hle').
    pose proof (searchInts_bounds (token.lines f) off).
    destruct (token.lines f !! S i) as [n|] eqn:Ei.
    - pose proof (searchInts_le _ off _ _ Hs Ei).
      destruct (token.lines f !! S j) as [n'|] eqn:Ej.
      + pose proof (searchInts_le _ off _ _ Hs Ej). lia.
      + apply lookup_ge_None_1 in Ej. lia.
    - apply lookup_ge_None_1 in Ei.
      destruct (token.lines f !! S j) as [n'|] eqn:Ej.
      + pose proof (searchInts_le _ off _ _ Hs Ej). lia.
      + apply lookup_ge_None_1 in Ej. apply lookup_lt_Some in Hi, Hj. lia. }
  rewrite Hi in Hj. injection Hj as <-. split; [done|].
  destruct (token.lines f !! S i); [destruct Hn, Hn'|]; congruence.
Qed.

Lemma isNotatedErr_decides err pkg fset :
  wf_FileSet fset -> wf_Package pkg fset ->
  exists b, isNotatedErr err pkg fset = Ret b /\ (b = true <-> notated err pkg fset).
Proof.
  intros Hwf Hpk. unfold isNotatedErr.
  destruct (token.FileSet_File fset (ErrorPos err)) as [f|] eqn:Ef.
  2:{ exists false. split; [done|]. split; [done|].
      intros (f & ? & ? & ? & ? & ? & ? & Hin & Hf & _).
      pose proof (proj2 (FileSet_File_spec fset _ f Hwf) (conj Hin Hf)). congruence. }
  unfold token.File_Name.
  destruct (ast.Files pkg !! token.name f) as [gopf|] eqn:Eg.
  2:{ exists false. split; [done|]. split; [done|].
      intros (f' & ? & ? & ? & ? & ? & ? & Hin & Hf & Hg & _).
      pose proof (proj2 (FileSet_File_spec fset _ f' Hwf) (conj Hin Hf)).
      assert (f' = f) as -> by congruence. congruence. }
  apply FileSet_File_Some in Ef as Hf. destruct Hf as (Hin & Hp & Hr).
  assert (wf_File f) as Hf by (destruct Hwf as [Hwf _]; by eapply Forall_forall in Hwf).
  destruct (line_range_code f (ErrorPos err) Hf Hp Hr)
    as (start & end_ & -> & -> & Hlr & Hse & Hsz).
  simpl. specialize (Hpk f gopf Hin Eg).
  destruct (slice_Ret (ast.Code gopf) start end_) as (text & -> & Hb); [lia..|].
  simpl. unfold strings.Index.
  destruct (strings.find text "//") as [n|] eqn:Fn.
  - apply find_Some in Fn as [(pre & rest & Et & Hn) Hfirst].
    destruct (Z.ltb_spec (Z.of_nat n) 0) as [|_]; [lia|].
    subst n.
    assert (strings.slice_from text (Z.of_nat (String.length pre) + 2) = Ret rest) as ->.
    { rewrite Et. apply (slice_from_after pre "//" rest). }
    simpl.
    eexists. split; [done|]. rewrite Contains_spec. split.
    + intros Hc. exists f, gopf, start, end_, text, pre, rest.
      split; [done|]. split; [done|]. done.
    + intros (f' & gopf' & s' & e' & text' & pre' & rest' &
              Hin' & Hf' & Hg' & Hlr' & Hb' & Et' & Hfirst' & Hc).
      pose proof (proj2 (FileSet_File_spec fset _ f' Hwf) (conj Hin' Hf')).
      assert (f' = f) as -> by congruence.
      assert (gopf' = gopf) as -> by congruence.
      destruct Hf as (_ & Hs & _).
      destruct (line_range_unique _ _ _ _ _ _ Hs Hlr Hlr') as [<- <-].
      pose proof (bytes_in_unique _ _ _ _ _ Hb Hb') as <-.
      assert (String.length pre' = String.length pre) as Hl.
      { destruct (Nat.lt_trichotomy (String.length pre') (String.length pre))
          as [Hlt|[?|Hlt]]; [|done|].
        - exfalso. apply (Hfirst _ Hlt). by exists pre', rest'.
        - exfalso. apply (Hfirst' _ Hlt). by exists pre, rest. }
      rewrite Et in Et'. apply string_app_inv_length in Et' as [_ Et']; [|done].
      apply string_app_inv_length in Et' as [_ <-]; done.
  - simpl. exists false. split; [done|]. split; [done|].
    intros (f' & gopf' & s' & e' & text' & pre' & rest' &
            Hin' & Hf' & Hg' & Hlr' & Hb' & Et' & Hfirst' & Hc).
    pose proof (proj2 (FileSet_File_spec fset _ f' Hwf) (conj Hin' Hf')).
    assert (f' = f) as -> by congruence.
    assert (gopf' = gopf) as -> by congruence.
    destruct Hf as (_ & Hs & _).
    destruct (line_range_unique _ _ _ _ _ _ Hs Hlr Hlr') as [<- <-].
    pose proof (bytes_in_unique _ _ _ _ _ Hb Hb') as <-.
    exfalso. eapply find_None; [exact Fn|]. by exists pre', rest'.
Qed.

(** ** Reconciliation of notated errors *)

Lemma isNotatedErr_notatedb err pkg fset :
  wf_FileSet fset -> wf_Package pkg fset ->
  isNotatedErr err pkg fset = Ret (notatedb pkg fset err).
Proof.
  intros Hf Hp. unfold notatedb.
  destruct (isNotatedErr_decides err pkg fset Hf Hp) as (b & -> & _). done.
Qed.

Lemma notatedb_true err pkg fset :
  wf_FileSet fset -> wf_Package pkg fset ->
  notatedb pkg fset err = true <-> notated err pkg fset.
Proof.
  intros Hf Hp. unfold notatedb.
  destruct (isNotatedErr_decides err pkg fset Hf Hp) as (b & -> & H). done.
Qed.

Lemma ignNotatedErrs_loop_filter v pkg fset ret :
  wf_FileSet fset -> wf_Package pkg fset ->
  ignNotatedErrs_loop v pkg fset ret =
  Ret (ret ++ filter (fun e => notatedb pkg fset e = false) v).
Proof.
  intros Hf Hp. revert ret. induction v as [|e v IH]; intros ret; simpl.
  - by rewrite app_nil_r.
  - rewrite (isNotatedErr_notatedb e pkg fset Hf Hp). simpl.
    rewrite filter_cons. destruct (notatedb pkg fset e) eqn:E.
    + rewrite IH. by rewrite decide_False.
    + rewrite IH. rewrite decide_True by done. by rewrite <- app_assoc.
Qed.

Lemma wf_Demo :
  wf_FileSet Demo.fset /\ wf_Package Demo.main Demo.fset /\
  wf_Package Demo.main_test Demo.fset.
Proof.
  assert (forall f, f ∈ Demo.fset -> f = Demo.file \/ f = Demo.file_test) as Hin.
  { intros f [->|[->|[]%elem_of_nil]%elem_of_cons]%elem_of_cons; auto. }
  split; [split|split].
  - repeat apply Forall_cons_2; try apply Forall_nil_2;
      (split; [done|]; split; [repeat constructor | by apply Forall_singleton]).
  - repeat constructor.
  - intros f gopf [->| ->]%Hin; simpl.
    + rewrite lookup_singleton_eq. by intros [= <-].
    + by rewrite lookup_singleton_ne.
  - intros f gopf [->| ->]%Hin; simpl.
    + by rewrite lookup_singleton_ne.
    + rewrite lookup_singleton_eq. by intros [= <-].
Qed.

(** C5.  On a well-formed file set and package, [ignNotatedErrs] maps an
    error list to the list of its elements that are not notated, in their
    order, and to the sentinel [ErrIgnoreNotated] when none is left; it
    maps any other error to [ErrIgnoreNotated] when it is notated and to
    the error itself otherwise.  An element counts as notated exactly when
    it is [notated] in the sense of the specification. *)
Theorem ignNotatedErrs_spec (pkg : ast.Package) (fset : token.FileSet) :
  wf_FileSet fset -> wf_Package pkg fset ->
  (forall v : list error,
     let ret := filter (fun e => notatedb pkg fset e = false) v in
     ignNotatedErrs (List v) pkg fset =
     Ret (match ret with [] => ErrIgnoreNotated | _ => List ret end)) /\
  (forall err : error, (forall v, err <> List v) ->
     ignNotatedErrs err pkg fset =
     Ret (if notatedb pkg fset err then ErrIgnoreNotated else err)) /\
  (forall err : error, notatedb pkg fset err = true <-> notated err pkg fset).
Proof.
  intros Hf Hp. split; [|split].
  - intros v ret. unfold ignNotatedErrs.
    rewrite (ignNotatedErrs_loop_filter v pkg fset [] Hf Hp). simpl.
    fold ret. by destruct ret.
  - intros err Hne. unfold ignNotatedErrs.
    destruct err as [| | | |errs|];
      try (rewrite isNotatedErr_notatedb by done;
           by destruct (notatedb pkg fset _)).
    by destruct (Hne errs).
  - intros err. by apply notatedb_true.
Qed.

(** A list with the announced error and an error without position: only
    the latter is left. *)
Lemma ignNotatedErrs_spec_witness :
  ignNotatedErrs (List [Demo.undefined; ErrMultiPackges]) Demo.main Demo.fset =
    Ret (List [ErrMultiPackges]) /\
  ignNotatedErrs (List [Demo.undefined]) Demo.main Demo.fset = Ret ErrIgnoreNotated /\
  ignNotatedErrs Demo.undefined Demo.main Demo.fset = Ret ErrIgnoreNotated /\
  ignNotatedErrs ErrMultiPackges Demo.main Demo.fset = Ret ErrMultiPackges.
Proof.
  destruct wf_Demo as (Hf & Hp & _).
  destruct (ignNotatedErrs_spec Demo.main Demo.fset Hf Hp) as (Hl & Hs & _).
  split; [|split; [|split]].
  - rewrite Hl. reflexivity.
  - rewrite Hl. reflexivity.
  - rewrite Hs by discriminate. reflexivity.
  - rewrite Hs by discriminate. reflexivity.
Defined.

(** C6.  On a well-formed file set and package, [isNotatedErr] answers,
    and it answers true if and only if the error is [notated]: its
    position is a position of a registered file, the package has a parsed file of
    that name, the line of the position (from its start to the next line
    start, or to the end of the file) contains [//], and the text after
    the first [//] contains [compile error:]. *)
Theorem isNotatedErr_iff_notated (err : error) (pkg : ast.Package)
    (fset : token.FileSet) :
  wf_FileSet fset -> wf_Package pkg fset ->
  exists b : bool,
    isNotatedErr err pkg fset = Ret b /\ (b = true <-> notated err pkg fset).
Proof. apply isNotatedErr_decides. Qed.

Lemma isNotatedErr_iff_notated_witness :
  exists b : bool,
    isNotatedErr Demo.undefined Demo.main Demo.fset = Ret b /\
    (b = true <-> notated Demo.undefined Demo.main Demo.fset).
Proof.
  destruct wf_Demo as (Hf & Hp & _).
  exact (isNotatedErr_iff_notated Demo.undefined Demo.main Demo.fset Hf Hp).
Defined.

(** ** The post-load hook *)

Section AfterLoad.
Context `{C : Collaborators}.

Lemma after_nil st : after st [] = st.
Proof. destruct st. unfold after. simpl. by rewrite app_nil_r. Qed.

Lemma after_after st evs evs' : after (after st evs) evs' = after st (evs ++ evs').
Proof. unfold after. simpl. by rewrite app_assoc. Qed.

(** [ForEachFile_or] is the bitwise or of the accumulator and of the
    flags of every file. *)
Lemma ForEachFile_or_testbit fs flags n :
  Z.testbit (ForEachFile_or fs flags) n =
  Z.testbit flags n ||
  existsb (fun f : string * gox.File => Z.testbit (gox.CheckGopDeps f.2) n) fs.
Proof.
  revert flags. induction fs as [|[fname file] fs IH]; intros flags; simpl.
  - by rewrite orb_false_r.
  - rewrite IH, Z.lor_spec. by rewrite orb_assoc.
Qed.

Lemma afterLoad_Some mod_ gop o test conf st :
  afterLoad mod_ gop (Some o) test conf st =
  (Ret tt, afterLoad_state mod_ gop o test conf st).
Proof.
  unfold afterLoad, afterLoad_state, flags_of.
  destruct (String.eqb (gopmod.Path mod_) gopMod); [done|].
  destruct st as [h t].
  destruct (DontUpdateGoMod conf), (gopmod.HasModfile mod_),
    (GopDeps conf) as [p|], test as [tp|]; simpl;
    rewrite ?Z.lor_0_r, ?app_nil_r; try done;
    unfold mbind, M_bind, lift, store, emit, mret, M_ret; simpl;
    match goal with
    | |- context [?x =? 0] => destruct (x =? 0); simpl; by rewrite ?app_nil_r
    end.
Qed.

Lemma afterLoad_None mod_ gop test conf st :
  exists r, afterLoad mod_ gop None test conf st = (r, st).
Proof.
  unfold afterLoad.
  destruct (String.eqb (gopmod.Path mod_) gopMod); [by eexists|].
  destruct (_ || _); by eexists.
Qed.

(** What [afterLoad] does, in full. *)
Lemma afterLoad_run (mod_ : gopmod.Module) (gop : env.Gop)
    (out test : option gox.Package) (conf : Config) (st : State) :
  let r := afterLoad mod_ gop out test conf st in
  (gopmod.Path mod_ = gopMod -> r = (Ret tt, st)) /\
  (exists evs, trace r.2 = trace st ++ evs /\
     (evs = [] \/
      exists o, out = Some o /\
        let total := Z.lor (flags_of o) (from_option flags_of 0 test) in
        evs = [EvSaveWithGopMod total (Module_SaveWithGopMod mod_ gop total)] /\
        gopmod.Path mod_ <> gopMod /\ gopmod.HasModfile mod_ = true /\
        DontUpdateGoMod conf = false /\ total <> 0)) /\
  (forall o, out = Some o ->
     let total := Z.lor (flags_of o) (from_option flags_of 0 test) in
     gopmod.Path mod_ <> gopMod -> gopmod.HasModfile mod_ = true ->
     DontUpdateGoMod conf = false -> total <> 0 ->
     trace r.2 =
     trace st ++ [EvSaveWithGopMod total (Module_SaveWithGopMod mod_ gop total)]) /\
  (forall l, GopDeps conf <> Some l -> heap r.2 !! l = heap st !! l).
Proof.
  cbv zeta. destruct out as [o|].
  - rewrite afterLoad_Some. unfold afterLoad_state. simpl.
    destruct (String.eqb_spec (gopmod.Path mod_) gopMod) as [Heq|Hne].
    { split; [done|]. split; [exists []; rewrite app_nil_r; auto|].
      split; done. }
    split; [done|]. simpl.
    assert (forall l, GopDeps conf <> Some l ->
              match GopDeps conf with
              | Some p => <[p:=flags_of o]> (heap st)
              | None => heap st
              end !! l = heap st !! l) as Hframe.
    { intros l Hl. destruct (GopDeps conf) as [p|]; [|done].
      rewrite lookup_insert_ne; [done | congruence]. }
    set (total := Z.lor (flags_of o) (from_option flags_of 0 test)).
    destruct (DontUpdateGoMod conf) eqn:Ed, (gopmod.HasModfile mod_) eqn:Eh,
      (Z.eqb_spec total 0) as [Hz|Hnz]; simpl;
      (split; [|split; [|exact Hframe]]);
      try (by exists []; rewrite app_nil_r; auto);
      try (intros o' [= <-] _ Hm Hd Hnz';
           first [discriminate | unfold total in *; congruence]).
    exists [EvSaveWithGopMod total (Module_SaveWithGopMod mod_ gop total)].
    split; [done|]. right. exists o. by fold total.
  - destruct (afterLoad_None mod_ gop test conf st) as [r Hr]. rewrite Hr. simpl.
    split.
    + intros Heq. unfold afterLoad in Hr.
      rewrite (proj2 (String.eqb_eq _ _) Heq) in Hr. by injection Hr as <-.
    + split; [exists []; rewrite app_nil_r; auto|]. done.
Qed.


End AfterLoad.

Section AfterLoadClaims.
Context `{C : Collaborators}.

(** C1, as the code has it.  When the module is not Go+ itself and the
    caller supplied [GopDeps], the slot receives the flags of the
    production package alone: the bitwise or of the flags of its files.
    The flags of the test package are or-ed in afterwards and reach only
    [SaveWithGopMod]. *)
Theorem afterLoad_GopDeps_production_only (mod_ : gopmod.Module) (gop : env.Gop)
    (o : gox.Package) (test : option gox.Package) (conf : Config) (p : loc)
    (st : State) :
  gopmod.Path mod_ <> gopMod -> GopDeps conf = Some p ->
  let st' := (afterLoad mod_ gop (Some o) test conf st).2 in
  heap st' = <[p := flags_of o]> (heap st) /\
  (forall n, Z.testbit (flags_of o) n =
             existsb (fun f : string * gox.File =>
                        Z.testbit (gox.CheckGopDeps f.2) n) (gox.files o)) /\
  (forall t, test = Some t -> gopmod.HasModfile mod_ = true ->
     DontUpdateGoMod conf = false ->
     let total := Z.lor (flags_of o) (flags_of t) in
     total <> 0 ->
     trace st' =
     trace st ++ [EvSaveWithGopMod total (Module_SaveWithGopMod mod_ gop total)]).
Proof.
  intros Hne Hp. cbv zeta. rewrite afterLoad_Some. unfold afterLoad_state. simpl.
  destruct (String.eqb_spec (gopmod.Path mod_) gopMod) as [|_]; [done|].
  simpl. rewrite Hp. split; [done|]. split.
  - intros n. unfold flags_of. rewrite ForEachFile_or_testbit.
    by rewrite Z.testbit_0_l.
  - intros t -> Hm Hd Hnz. rewrite Hm, Hd. simpl.
    by rewrite (proj2 (Z.eqb_neq _ _) Hnz).
Qed.

End AfterLoadClaims.

Lemma afterLoad_GopDeps_production_only_witness :
  let C := Demo.world Demo.both Demo.compile_ok Demo.save_ok in
  let st' := (afterLoad Demo.mod_ Demo.gop (Some Demo.out01) (Some Demo.out10)
                (Demo.conf (Some 7%nat) false) Demo.st0).2 in
  heap st' = <[7%nat := 1]> ∅ /\
  trace st' = [EvSaveWithGopMod 3 None].
Proof.
  intros C.
  destruct (afterLoad_GopDeps_production_only (C := C) Demo.mod_ Demo.gop
              Demo.out01 (Some Demo.out10) (Demo.conf (Some 7%nat) false)
              7%nat Demo.st0) as (Hh & _ & Ht); [discriminate | reflexivity |].
  split; [exact Hh|].
  apply (Ht Demo.out10); [reflexivity | reflexivity | reflexivity | discriminate].
Defined.

(** C1 as stated fails: production flags 0b01, test flags 0b10 and a
    [GopDeps] slot leave 0b01 in the slot, not 0b11. *)
Lemma LoadDir_GopDeps_counterexample :
  let C := Demo.world Demo.both Demo.compile_ok Demo.save_ok in
  let r := LoadDir "/demo" (Some (Demo.conf (Some 7%nat) false)) true []
             Demo.st0 in
  r.1 = Ret {| out := Some Demo.out01; test := Some Demo.out10; err := None |} /\
  flags_of Demo.out01 = 1 /\ flags_of Demo.out10 = 2 /\
  heap r.2 !! 7%nat = Some 1 /\ heap r.2 !! 7%nat <> Some 3.
Proof. vm_compute. repeat split; discriminate. Qed.

(** ** The loop of [LoadDir] *)

Section Loop.
Context `{C : Collaborators}.

Lemma NewPackage_run pkg clConf st :
  NewPackage pkg clConf st =
  (Ret (cl_NewPackage "" pkg clConf),
   after st [EvNewPackage pkg (cl_NewPackage "" pkg clConf)]).
Proof. reflexivity. Qed.

Lemma bind_run {A B} (m : M A) (f : A -> M B) st :
  (m ≫= f) st =
  match m st with
  | (Ret a, st') => f a st'
  | (Panic msg, st') => (Panic msg, st')
  end.
Proof. reflexivity. Qed.

(** What the loop does: it compiles production packages only, it saves
    nothing, a failed compile is its last call and makes it return, and
    it finishes with a test package and with the output of a compile
    that succeeded. *)
Lemma LoadDir_loop_events dir conf fset clConf prompt pkgs out pkgTest st :
  Forall (fun np : string * ast.Package => ast.Name np.2 = np.1) pkgs ->
  let r := LoadDir_loop dir conf fset clConf prompt pkgs out pkgTest st in
  exists evs, r.2 = after st evs /\
    (forall pkg res, EvNewPackage pkg res ∈ evs -> is_test pkg = false) /\
    (forall flags res, EvSaveWithGopMod flags res ∉ evs) /\
    (forall pkg o e, EvNewPackage pkg (o, Some e) ∈ evs ->
       (exists pre, evs = pre ++ [EvNewPackage pkg (o, Some e)]) /\
       (forall l, r.1 = Ret l ->
          exists e', l = Returned {| out := o; test := None; err := Some e' |})) /\
    (forall o pt, r.1 = Ret (Finished o pt) ->
       (pt = pkgTest \/ exists p, pt = Some p /\ is_test p = true) /\
       (o = out \/ exists pkg, is_Some o /\ EvNewPackage pkg (o, None) ∈ evs)).
Proof.
  intros Hkey. revert out pkgTest st.
  induction Hkey as [|[name pkg] pkgs Hname Hkey IH]; intros out pkgTest st;
    cbn [LoadDir_loop]; cbv zeta.
  { exists []. rewrite after_nil. split; [done|].
    split; [by intros ? ? ?%elem_of_nil|]. split; [by intros ? ? ?%elem_of_nil|].
    split; [by intros ? ? ? ?%elem_of_nil|].
    intros o pt [= <- <-]. auto. }
  simpl in Hname.
  assert (is_test pkg = strings.HasSuffix name "_test") as Htest
    by (unfold is_test; by rewrite Hname).
  destruct (strings.HasSuffix name "_test") eqn:Esuf.
  { destruct pkgTest as [pt0|].
    - exists []. rewrite after_nil. split; [done|].
      split; [by intros ? ? ?%elem_of_nil|]. split; [by intros ? ? ?%elem_of_nil|].
      split; [by intros ? ? ? ?%elem_of_nil|]. by intros o pt [=].
    - destruct (IH out (Some pkg) st) as (evs & E & H1 & H4 & H2 & H3).
      exists evs. split; [done|]. split; [done|]. split; [done|]. split; [done|].
      intros o pt Hr. destruct (H3 o pt Hr) as [[->|Hp] Ho]; split; eauto. }
  destruct out as [o0|].
  { exists []. rewrite after_nil. split; [done|].
    split; [by intros ? ? ?%elem_of_nil|]. split; [by intros ? ? ?%elem_of_nil|].
    split; [by intros ? ? ? ?%elem_of_nil|]. by intros o pt [=]. }
  destruct (size (ast.Files pkg) =? 0)%nat.
  { apply IH. }
  set (evs0 := prompt_events dir prompt).
  set (res := cl_NewPackage "" pkg clConf).
  set (ev := EvNewPackage pkg res).
  assert ((if match prompt with b :: _ => b | [] => false end
           then emit (EvStderr ("GenGo " +:+ dir +:+ " ..."))
           else mret tt) st = (Ret tt, after st evs0)) as Eprompt.
  { unfold evs0, prompt_events. destruct (match prompt with b :: _ => b | [] => false end);
      [done | by rewrite after_nil]. }
  rewrite bind_run, Eprompt, bind_run, NewPackage_run, after_after.
  fold res ev.
  assert (forall pkg' r', EvNewPackage pkg' r' ∈ evs0 -> False) as Hevs0.
  { intros pkg' r'. unfold evs0, prompt_events.
    destruct (match prompt with b :: _ => b | [] => false end);
      [intros [=]%list_elem_of_singleton | intros ?%elem_of_nil]; done. }
  assert (forall f' r', EvSaveWithGopMod f' r' ∈ evs0 -> False) as Hsv0.
  { intros f' r'. unfold evs0, prompt_events.
    destruct (match prompt with b :: _ => b | [] => false end);
      [intros [=]%list_elem_of_singleton | intros ?%elem_of_nil]; done. }
  destruct (res.2) as [e|] eqn:Eres.
  - (* the compile failed: the loop returns *)
    rewrite bind_run.
    set (rec := if IgnoreNotatedError conf then lift (ignNotatedErrs e pkg fset)
                else mret e).
    assert (exists x, rec (after st (evs0 ++ [ev])) = (x, after st (evs0 ++ [ev])))
      as [x Ex].
    { unfold rec. destruct (IgnoreNotatedError conf); by eexists. }
    rewrite Ex. exists (evs0 ++ [ev]).
    split; [by destruct x|].
    split.
    { intros pkg' r' [Hin|Hin%list_elem_of_singleton]%elem_of_app.
      - by destruct (Hevs0 _ _ Hin).
      - injection Hin as -> _. by rewrite Htest. }
    split.
    { intros f' r' [Hin|Hin%list_elem_of_singleton]%elem_of_app.
      - by destruct (Hsv0 _ _ Hin).
      - done. }
    split.
    { intros pkg' o' e' [Hin|Hin%list_elem_of_singleton]%elem_of_app.
      - by destruct (Hevs0 _ _ Hin).
      - injection Hin as -> Hr. split.
        + exists evs0. unfold ev. by rewrite <- Hr.
        + intros l. destruct x as [e''|]; [|done]. intros [= <-].
          exists e''. by rewrite <- Hr. }
    intros o pt. by destruct x.
  - (* the compile succeeded: the loop goes on with its output *)
    destruct (IH res.1 pkgTest (after st (evs0 ++ [ev])))
      as (evs & E & H1 & H4 & H2 & H3).
    exists ((evs0 ++ [ev]) ++ evs). rewrite <- (after_after st (evs0 ++ [ev]) evs).
    split; [done|].
    split.
    { intros pkg' r' [[Hin|Hin%list_elem_of_singleton]%elem_of_app|Hin]%elem_of_app.
      - by destruct (Hevs0 _ _ Hin).
      - injection Hin as -> _. by rewrite Htest.
      - by eapply H1. }
    split.
    { intros f' r' [[Hin|Hin%list_elem_of_singleton]%elem_of_app|Hin]%elem_of_app.
      - by destruct (Hsv0 _ _ Hin).
      - done.
      - by eapply H4. }
    split.
    { intros pkg' o' e' [[Hin|Hin%list_elem_of_singleton]%elem_of_app|Hin]%elem_of_app.
      - by destruct (Hevs0 _ _ Hin).
      - injection Hin as -> Hr. rewrite <- Hr in Eres. done.
      - destruct (H2 _ _ _ Hin) as [[pre Hpre] Hl]. split; [|done].
        exists ((evs0 ++ [ev]) ++ pre). rewrite Hpre. by rewrite !app_assoc. }
    intros o pt Hr. destruct (H3 o pt Hr) as [Hpt Ho]. split; [done|].
    destruct Ho as [->|(pkg' & Hs & Hin)].
    + destruct (res.1) as [o1|] eqn:Eo; [|by left].
      right. exists pkg. split; [done|].
      apply elem_of_app. left. apply elem_of_app. right.
      apply list_elem_of_singleton. unfold ev. f_equal.
      destruct res. simpl in *. congruence.
    + right. exists pkg'. split; [done|]. apply elem_of_app. by right.
Qed.

(** Without any assumption on the parser: the loop leaves the memory
    alone and saves nothing. *)
Lemma LoadDir_loop_any dir conf fset clConf prompt pkgs out pkgTest st :
  let r := LoadDir_loop dir conf fset clConf prompt pkgs out pkgTest st in
  exists evs, r.2 = after st evs /\
    (forall flags res, EvSaveWithGopMod flags res ∉ evs).
Proof.
  revert out pkgTest st.
  induction pkgs as [|[name pkg] pkgs IH]; intros out pkgTest st;
    cbn [LoadDir_loop]; cbv zeta.
  { exists []. rewrite after_nil. split; [done|].
    by intros ? ? ?%elem_of_nil. }
  assert (exists evs : list Event, st = after st evs /\
            (forall flags res, EvSaveWithGopMod flags res ∉ evs)) as Hquiet.
  { exists []. rewrite after_nil. split; [done|].
    by intros ? ? ?%elem_of_nil. }
  destruct (strings.HasSuffix name "_test").
  { destruct pkgTest; [exact Hquiet | apply IH]. }
  destruct out; [exact Hquiet|].
  destruct (size (ast.Files pkg) =? 0)%nat; [apply IH|].
  assert ((if match prompt with b :: _ => b | [] => false end
           then emit (EvStderr ("GenGo " +:+ dir +:+ " ..."))
           else mret tt) st = (Ret tt, after st (prompt_events dir prompt)))
    as Eprompt.
  { unfold prompt_events. destruct (match prompt with b :: _ => b | [] => false end);
      [done | by rewrite after_nil]. }
  assert (forall f' r', EvSaveWithGopMod f' r' ∉ prompt_events dir prompt) as Hsv0.
  { intros f' r'. unfold prompt_events.
    destruct (match prompt with b :: _ => b | [] => false end);
      [intros [=]%list_elem_of_singleton | intros ?%elem_of_nil]; done. }
  rewrite bind_run, Eprompt, bind_run, NewPackage_run, after_after.
  set (res := cl_NewPackage "" pkg clConf). set (ev := EvNewPackage pkg res).
  assert (forall f' r', EvSaveWithGopMod f' r' ∉ prompt_events dir prompt ++ [ev])
    as Hsv1.
  { intros f' r' [Hin|Hin%list_elem_of_singleton]%elem_of_app;
      [by destruct (Hsv0 f' r') | done]. }
  destruct (res.2) as [e|].
  - rewrite bind_run.
    set (rec := if IgnoreNotatedError conf then lift (ignNotatedErrs e pkg fset)
                else mret e).
    assert (exists x, rec (after st (prompt_events dir prompt ++ [ev])) =
                      (x, after st (prompt_events dir prompt ++ [ev]))) as [x ->].
    { unfold rec. destruct (IgnoreNotatedError conf); by eexists. }
    exists (prompt_events dir prompt ++ [ev]). by destruct x.
  - destruct (IH res.1 pkgTest (after st (prompt_events dir prompt ++ [ev])))
      as (evs & E & H4).
    exists ((prompt_events dir prompt ++ [ev]) ++ evs).
    rewrite <- (after_after st (prompt_events dir prompt ++ [ev]) evs).
    split; [done|].
    intros f' r' [Hin|Hin]%elem_of_app; [by destruct (Hsv1 f' r') | by destruct (H4 f' r')].
Qed.

End Loop.

(** ** The loaders in stages *)

Section Staged.
Context `{C : Collaborators}.

(** [LoadMod] returns a module whenever it returns no error, so that
    neither loader goes on with a nil module. *)
Lemma LoadMod_module dir : (LoadMod dir).2 = None -> is_Some (LoadMod dir).1.
Proof.
  unfold LoadMod. destruct (gopmod_Load dir) as [m [e|]].
  - destruct (gopmod_IsNotFound e); simpl; [|done].
    destruct (Module_ImportClasses _); simpl; [done | by eexists].
  - destruct (Module_ImportClasses _); simpl; [done | by eexists].
Qed.

Lemma LoadDir_staged dir conf genTestPkg promptGenGo :
  LoadDir dir conf genTestPkg promptGenGo =
  let cf := default new_Config conf in
  match Mod cf with
  | Some m => LoadDir_parsed dir cf genTestPkg promptGenGo m
  | None =>
      match LoadMod dir with
      | (_, Some e) =>
          mret {| out := None; test := None;
                  err := Some (errors.NewWith e "LoadMod(dir)" "gop.LoadMod") |}
      | (Some m, None) => LoadDir_parsed dir cf genTestPkg promptGenGo m
      | (None, None) => lift (Panic "nil pointer dereference")
      end
  end.
Proof. reflexivity. Qed.

Lemma LoadFiles_staged dir files conf :
  LoadFiles dir files conf =
  let cf := default new_Config conf in
  match Mod cf with
  | Some m => LoadFiles_parsed files cf m
  | None =>
      match LoadMod dir with
      | (_, Some e) =>
          mret (None, Some (errors.NewWith e "LoadMod(dir)" "gop.LoadMod"))
      | (Some m, None) => LoadFiles_parsed files cf m
      | (None, None) => lift (Panic "nil pointer dereference")
      end
  end.
Proof. reflexivity. Qed.

(** Either the module is not found and the load stops at once, or the
    load goes on with the resolved module. *)
Lemma LoadDir_resolve dir conf genTestPkg promptGenGo st :
  let cf := default new_Config conf in
  match resolve_Mod cf dir with
  | Some m =>
      LoadDir dir conf genTestPkg promptGenGo st =
      LoadDir_parsed dir cf genTestPkg promptGenGo m st
  | None => exists r, LoadDir dir conf genTestPkg promptGenGo st = (r, st)
  end.
Proof.
  rewrite LoadDir_staged. cbv zeta. unfold resolve_Mod.
  destruct (Mod (default new_Config conf)) as [m|]; [done|].
  destruct (LoadMod dir) as [[m|] [e|]]; try done; by eexists.
Qed.

Lemma LoadFiles_resolve dir files conf st :
  let cf := default new_Config conf in
  match resolve_Mod cf dir with
  | Some m => LoadFiles dir files conf st = LoadFiles_parsed files cf m st
  | None => exists r, LoadFiles dir files conf st = (r, st)
  end.
Proof.
  rewrite LoadFiles_staged. cbv zeta. unfold resolve_Mod.
  destruct (Mod (default new_Config conf)) as [m|]; [done|].
  destruct (LoadMod dir) as [[m|] [e|]]; try done; by eexists.
Qed.

End Staged.

(** ** Compile failures in [LoadDir] *)

Section LoadDirClaims.
Context `{C : Collaborators}.

Lemma afterLoad_state_trace mod_ gop o test conf st :
  exists evs, trace (afterLoad_state mod_ gop o test conf st) = trace st ++ evs /\
    forall pkg r, EvNewPackage pkg r ∉ evs.
Proof.
  unfold afterLoad_state.
  destruct (String.eqb (gopmod.Path mod_) gopMod).
  { exists []. rewrite app_nil_r. split; [done|]. by intros ? ? ?%elem_of_nil. }
  simpl. eexists. split; [done|]. intros pkg r.
  destruct (_ && _); [by intros [=]%list_elem_of_singleton | by intros ?%elem_of_nil].
Qed.

(** The tail of [LoadDir] on a production package that compiled. *)
Lemma LoadDir_tail_Finished (conf : Config) (genTestPkg : bool)
    (mod_ : gopmod.Module) (clConf : cl.Config) (o : gox.Package)
    (pkgTest : option ast.Package) (st : State) :
  let evs := match pkgTest with
             | Some pt =>
                 if genTestPkg
                 then [EvNewPackage pt (cl_NewPackage "" pt clConf)] else []
             | None => []
             end in
  let r := match pkgTest with
           | Some pt =>
               if genTestPkg then cl_NewPackage "" pt clConf else (None, None)
           | None => (None, None)
           end in
  LoadDir_tail conf genTestPkg mod_ clConf (Finished (Some o) pkgTest) st =
  (Ret {| out := Some o; test := r.1; err := r.2 |},
   afterLoad_state mod_ (gop_of conf) o r.1 conf (after st evs)).
Proof.
  cbv zeta. unfold LoadDir_tail.
  destruct pkgTest as [pt|]; [destruct genTestPkg|];
    rewrite bind_run; rewrite ?NewPackage_run; simpl;
    rewrite bind_run, afterLoad_Some, ?after_nil; done.
Qed.

(** C7.  Provided the parser files packages under their names: in every
    run of [LoadDir], a failed compile of a production package is the
    last call of the run, no test package is compiled in the run, and
    [LoadDir] returns the output of that compile with an error and
    without test package; and when the compile of the test package
    fails, a production package has compiled before without error and
    with a non-nil output, and [LoadDir] returns that output together
    with the test output and the error. *)
Theorem LoadDir_compile_failures (dir : string) (conf : option Config)
    (genTestPkg : bool) (promptGenGo : list bool) (st : State) :
  keyed_by_name ->
  let r := LoadDir dir conf genTestPkg promptGenGo st in
  exists evs, trace r.2 = trace st ++ evs /\
    (forall pkg o e,
       EvNewPackage pkg (o, Some e) ∈ evs -> is_test pkg = false ->
       (forall pkg' r', EvNewPackage pkg' r' ∈ evs -> is_test pkg' = false) /\
       (exists pre, evs = pre ++ [EvNewPackage pkg (o, Some e)]) /\
       (forall res, r.1 = Ret res ->
          out res = o /\ test res = None /\ is_Some (err res))) /\
    (forall pt t e,
       EvNewPackage pt (t, Some e) ∈ evs -> is_test pt = true ->
       exists o pkg,
         EvNewPackage pkg (Some o, None) ∈ evs /\ is_test pkg = false /\
         r.1 = Ret {| out := Some o; test := t; err := Some e |}).
Proof.
  intros Hkey. cbv zeta.
  assert (forall x, exists evs : list Event, trace (x, st).2 = trace st ++ evs /\
    (forall pkg o e,
       EvNewPackage pkg (o, Some e) ∈ evs -> is_test pkg = false ->
       (forall pkg' r', EvNewPackage pkg' r' ∈ evs -> is_test pkg' = false) /\
       (exists pre, evs = pre ++ [EvNewPackage pkg (o, Some e)]) /\
       (forall res : Loaded, (x, st).1 = Ret res ->
          out res = o /\ test res = None /\ is_Some (err res))) /\
    (forall pt t e,
       EvNewPackage pt (t, Some e) ∈ evs -> is_test pt = true ->
       exists o pkg,
         EvNewPackage pkg (Some o, None) ∈ evs /\ is_test pkg = false /\
         (x, st).1 = Ret {| out := Some o; test := t; err := Some e |})) as Hquiet.
  { intros x. exists []. rewrite app_nil_r. split; [done|].
    split; by intros ? ? ? ?%elem_of_nil. }
  pose proof (LoadDir_resolve dir conf genTestPkg promptGenGo st) as Hres.
  cbv zeta in Hres.
  destruct (resolve_Mod (default new_Config conf) dir) as [m|];
    [rewrite Hres | destruct Hres as [x ->]; apply Hquiet].
  unfold LoadDir_parsed. cbv zeta.
  set (cf := default new_Config conf).
  set (parsed := parser_ParseDirEx (default [] (Fset cf)) dir (parserConf_of cf m)).
  destruct (parser.err parsed); [apply Hquiet|].
  destruct (length (parser.pkgs parsed) =? 0)%nat; [apply Hquiet|].
  rewrite bind_run.
  destruct (LoadDir_loop_events dir cf (parser.fset parsed)
              (clConf_of cf m (parser.fset parsed)) promptGenGo
              (parser.pkgs parsed) None None st (Hkey _ _ _))
    as (evs & E & H1 & H4 & H2 & H3).
  destruct (LoadDir_loop _ _ _ _ _ _ _ _ st) as [[l|msg] st1]. simpl in E, H2, H3.
  2:{ (* the reconciliation panicked *)
      simpl in *. subst st1. exists evs. split; [done|]. split.
      - intros pkg o e Hin Ht. destruct (H2 _ _ _ Hin) as [Hpre _].
        split; [done|]. split; [done|]. by intros res.
      - intros pt t e Hin Ht. rewrite (H1 _ _ Hin) in Ht. done. }
  subst st1. destruct l as [res|[o|] pt].
  - (* a [return] in the loop *)
    exists evs. split; [done|]. split.
    + intros pkg o e Hin Ht. destruct (H2 _ _ _ Hin) as [Hpre Hl].
      split; [done|]. split; [done|]. intros res' [= <-].
      destruct (Hl _ eq_refl) as [e' [= ->]]. simpl. eauto.
    + intros pkg t e Hin Ht. rewrite (H1 _ _ Hin) in Ht. done.
  - (* a production package compiled *)
    rewrite LoadDir_tail_Finished.
    destruct (H3 _ _ eq_refl) as [Hpt Ho].
    destruct Ho as [[=]|(pkg0 & _ & Hin0)].
    set (evt := match pt with
                | Some pt0 =>
                    if genTestPkg
                    then [EvNewPackage pt0
                            (cl_NewPackage "" pt0 (clConf_of cf m (parser.fset parsed)))]
                    else []
                | None => []
                end).
    set (rt := match pt with
               | Some pt0 =>
                   if genTestPkg
                   then cl_NewPackage "" pt0 (clConf_of cf m (parser.fset parsed))
                   else (None, None)
               | None => (None, None)
               end).
    destruct (afterLoad_state_trace m (gop_of cf) o rt.1 cf (after (after st evs) evt))
      as (evs' & Etr & Hnc).
    exists (evs ++ evt ++ evs'). simpl. rewrite Etr. simpl.
    split; [by rewrite !app_assoc|].
    assert (forall pkg r, EvNewPackage pkg r ∈ evt ->
              is_test pkg = true /\ r = rt /\ evt = [EvNewPackage pkg r]) as Hevt.
    { intros pkg r. unfold evt, rt.
      destruct pt as [pt0|]; [destruct genTestPkg|]; try by intros ?%elem_of_nil.
      intros [= -> ->]%list_elem_of_singleton.
      destruct Hpt as [[=]|(p & [= <-] & Hp)]. done. }
    split.
    + intros pkg o' e [Hin|[Hin|Hin]%elem_of_app]%elem_of_app Ht.
      * destruct (H2 _ _ _ Hin) as [_ Hl]. by destruct (Hl _ eq_refl).
      * destruct (Hevt _ _ Hin) as [Ht' _]. congruence.
      * by destruct (Hnc _ _ Hin).
    + intros pkg t e [Hin|[Hin|Hin]%elem_of_app]%elem_of_app Ht.
      * rewrite (H1 _ _ Hin) in Ht. done.
      * destruct (Hevt _ _ Hin) as (_ & Hr & _).
        exists o, pkg0. split; [apply elem_of_app; by left|].
        split; [by eapply H1|]. by rewrite <- Hr.
      * by destruct (Hnc _ _ Hin).
  - (* no production package compiled *)
    exists evs. split; [done|]. split.
    + intros pkg o e Hin Ht. destruct (H2 _ _ _ Hin) as [_ Hl].
      by destruct (Hl _ eq_refl).
    + intros pkg t e Hin Ht. rewrite (H1 _ _ Hin) in Ht. done.
Qed.

End LoadDirClaims.

(** ** What [SaveWithGopMod] returns is dropped *)

Lemma same_but_save_refl st : same_but_save st st.
Proof. by split. Qed.

Lemma sim_ret {A} (a : A) : sim (mret a) (mret a).
Proof. intros st1 st2 H. by split. Qed.

Lemma sim_lift {A} (o : outcome A) : sim (lift o) (lift o).
Proof. intros st1 st2 H. by split. Qed.

Lemma sim_bind {A B} (m1 m2 : M A) (f1 f2 : A -> M B) :
  sim m1 m2 -> (forall a, sim (f1 a) (f2 a)) -> sim (m1 ≫= f1) (m2 ≫= f2).
Proof.
  intros Hm Hf st1 st2 H. unfold mbind, M_bind.
  destruct (Hm st1 st2 H) as [Ho Hs].
  destruct (m1 st1) as [[a|msg] st1'], (m2 st2) as [[a'|msg'] st2'];
    simpl in *; try discriminate.
  - injection Ho as <-. by apply Hf.
  - injection Ho as <-. by split.
Qed.

Lemma sim_emit (e1 e2 : Event) : forget_save e1 = forget_save e2 -> sim (emit e1) (emit e2).
Proof.
  intros He st1 st2 [Hh Ht]. split; [done|]. split; simpl; [done|].
  by rewrite !fmap_app, Ht, !list_fmap_singleton, He.
Qed.

Lemma sim_store (l : loc) (v : Z) : sim (store l v) (store l v).
Proof. intros st1 st2 [Hh Ht]. split; [done|]. split; simpl; [by rewrite Hh | done]. Qed.

Ltac sim_step :=
  first
    [ apply sim_ret
    | apply sim_lift
    | apply sim_store
    | apply sim_emit; reflexivity
    | apply sim_bind; [|intros ?]
    | match goal with
      | |- sim (if ?b then _ else _) (if ?b then _ else _) => destruct b
      | |- sim (match ?x with _ => _ end) (match ?x with _ => _ end) => destruct x
      end ].

Section Save.
Context (C : Collaborators).
Context (save : gopmod.Module -> env.Gop -> Z -> option error).

Lemma sim_afterLoad mod_ gop out test conf :
  sim (afterLoad (C := C) mod_ gop out test conf)
      (afterLoad (C := with_save C save) mod_ gop out test conf).
Proof. unfold afterLoad. simpl. repeat sim_step. Qed.

Lemma sim_NewPackage pkg clConf :
  sim (NewPackage (C := C) pkg clConf)
      (NewPackage (C := with_save C save) pkg clConf).
Proof. unfold NewPackage. simpl. repeat sim_step. Qed.

Lemma sim_LoadDir_loop dir conf fset clConf prompt pkgs out pkgTest :
  sim (LoadDir_loop (C := C) dir conf fset clConf prompt pkgs out pkgTest)
      (LoadDir_loop (C := with_save C save) dir conf fset clConf prompt pkgs
         out pkgTest).
Proof.
  revert out pkgTest. induction pkgs as [|[name pkg] pkgs IH]; intros out pkgTest;
    cbn [LoadDir_loop].
  - apply sim_ret.
  - repeat first [apply IH | apply sim_NewPackage | sim_step].
Qed.

Lemma sim_LoadDir dir conf genTestPkg promptGenGo :
  sim (LoadDir (C := C) dir conf genTestPkg promptGenGo)
      (LoadDir (C := with_save C save) dir conf genTestPkg promptGenGo).
Proof.
  unfold LoadDir, LoadMod. simpl.
  repeat first [apply sim_LoadDir_loop | apply sim_NewPackage
               | apply sim_afterLoad | sim_step].
Qed.

Lemma sim_LoadFiles dir files conf :
  sim (LoadFiles (C := C) dir files conf)
      (LoadFiles (C := with_save C save) dir files conf).
Proof.
  unfold LoadFiles, LoadMod. simpl.
  repeat first [apply sim_NewPackage | apply sim_afterLoad | sim_step].
Qed.

(** C4, as the code has it.  What [SaveWithGopMod] returns has no
    influence on a load: with any other [SaveWithGopMod], [LoadDir] and
    [LoadFiles] return the same values (packages and error, or panic),
    leave the same memory and make the same calls. *)
Theorem load_result_ignores_save (dir : string) (files : list string)
    (conf : option Config) (genTestPkg : bool) (promptGenGo : list bool)
    (st : State) :
  (let r1 := LoadDir (C := C) dir conf genTestPkg promptGenGo st in
   let r2 := LoadDir (C := with_save C save) dir conf genTestPkg promptGenGo st in
   r1.1 = r2.1 /\ heap r1.2 = heap r2.2 /\
   forget_save <$> trace r1.2 = forget_save <$> trace r2.2) /\
  (let r1 := LoadFiles (C := C) dir files conf st in
   let r2 := LoadFiles (C := with_save C save) dir files conf st in
   r1.1 = r2.1 /\ heap r1.2 = heap r2.2 /\
   forget_save <$> trace r1.2 = forget_save <$> trace r2.2).
Proof.
  split; cbv zeta.
  - destruct (sim_LoadDir dir conf genTestPkg promptGenGo st st
                (same_but_save_refl st)) as (H1 & H2 & H3). done.
  - destruct (sim_LoadFiles dir files conf st st (same_but_save_refl st))
      as (H1 & H2 & H3). done.
Qed.

End Save.

(** C4 as stated fails: the manifest write fails, and [LoadDir] returns
    both packages and no error. *)
Lemma LoadDir_save_failure_discarded :
  let C := Demo.world Demo.both Demo.compile_ok Demo.save_fails in
  let r := LoadDir "/demo" (Some (Demo.conf None false)) true [] Demo.st0 in
  r.1 = Ret {| out := Some Demo.out01; test := Some Demo.out10; err := None |} /\
  last (trace r.2) = Some (EvSaveWithGopMod 3 (Some (errors.New "permission denied"))).
Proof. vm_compute. split; reflexivity. Qed.

(** ** [LoadFiles] *)

Section LoadFilesClaims.
Context `{C : Collaborators}.

Lemma afterLoad_trace mod_ gop out test conf st :
  exists evs, trace (afterLoad mod_ gop out test conf st).2 = trace st ++ evs.
Proof.
  destruct out as [o|].
  - rewrite afterLoad_Some. simpl.
    destruct (afterLoad_state_trace mod_ gop o test conf st) as (evs & E & _).
    by exists evs.
  - destruct (afterLoad_None mod_ gop test conf st) as [r ->].
    exists []. by rewrite app_nil_r.
Qed.

Lemma LoadFiles_reconcile_state conf pkg fset e st :
  exists x, LoadFiles_reconcile conf pkg fset e st = (x, st).
Proof.
  unfold LoadFiles_reconcile. destruct e as [e|]; [|by eexists].
  destruct (IgnoreNotatedError conf); [|by eexists].
  rewrite bind_run. unfold lift. destruct (ignNotatedErrs e pkg fset); by eexists.
Qed.

(** C8.  When the module is resolved and the files parse: if the parser
    yields any number of packages other than one, zero included,
    [LoadFiles] compiles nothing and returns [ErrMultiPackges] in a
    frame; if it yields one package, [LoadFiles] compiles it. *)
Theorem LoadFiles_one_package (dir : string) (files : list string)
    (conf : option Config) (st : State) (m : gopmod.Module) :
  let cf := default new_Config conf in
  resolve_Mod cf dir = Some m ->
  let parsed := parser_ParseEntries (default [] (Fset cf)) files
                  (parserConf_of cf m) in
  parser.err parsed = None ->
  (length (parser.pkgs parsed) <> 1%nat ->
     let e := errors.NewWith ErrMultiPackges "len(pkgs) != 1" "!=" in
     LoadFiles dir files conf st = (Ret (None, Some e), st) /\
     errors.Err e = ErrMultiPackges) /\
  (forall name pkg, parser.pkgs parsed = [(name, pkg)] ->
     exists evs,
       trace (LoadFiles dir files conf st).2 =
       trace st ++
         EvNewPackage pkg
           (cl_NewPackage "" pkg (clConf_of cf m (parser.fset parsed))) :: evs).
Proof.
  intros cf Hm parsed Herr.
  pose proof (LoadFiles_resolve dir files conf st) as Hres. cbv zeta in Hres.
  fold cf in Hres. rewrite Hm in Hres. rewrite Hres.
  unfold LoadFiles_parsed. cbv zeta. fold parsed. rewrite Herr. split.
  - intros Hlen. split; [|done].
    destruct (parser.pkgs parsed) as [|[name pkg] [|np pkgs]]; done.
  - intros name pkg ->. rewrite bind_run, NewPackage_run.
    set (ev := EvNewPackage _ _).
    rewrite bind_run.
    destruct (LoadFiles_reconcile_state cf pkg (parser.fset parsed)
                (cl_NewPackage "" pkg (clConf_of cf m (parser.fset parsed))).2
                (after st [ev])) as [x ->].
    destruct x as [e'|msg]; [|by exists []].
    rewrite bind_run.
    destruct (afterLoad_trace m (gop_of cf)
                (cl_NewPackage "" pkg (clConf_of cf m (parser.fset parsed))).1
                None cf (after st [ev])) as [evs E].
    destruct (afterLoad _ _ _ _ _ _) as [[[]|msg] st2]; simpl in *;
      exists evs; by rewrite E, <- app_assoc.
Qed.

(** C10.  When the module is resolved: if the files parse to one
    package, then whatever its compile returns, an error and a nil
    output included, [LoadFiles] goes on to run [afterLoad] on that
    output, and ends in the state and with the outcome of the hook, so
    that the [GopDeps] slot holds the flags of a non-nil output even
    when the compile failed;
    whereas [LoadDir], when the compile of the production package
    that its loop visits first fails, returns at once in the state of
    the compile, whatever else the directory holds. *)
Theorem LoadFiles_always_afterLoad (dir : string) (files : list string)
    (conf : option Config) (genTestPkg : bool) (promptGenGo : list bool)
    (st : State) (m : gopmod.Module) (name : string) (pkg : ast.Package) :
  let cf := default new_Config conf in
  resolve_Mod cf dir = Some m ->
  (let parsed := parser_ParseEntries (default [] (Fset cf)) files
                   (parserConf_of cf m) in
   let res := cl_NewPackage "" pkg (clConf_of cf m (parser.fset parsed)) in
   let st1 := after st [EvNewPackage pkg res] in
   parser.err parsed = None -> parser.pkgs parsed = [(name, pkg)] ->
   forall e',
     LoadFiles_reconcile cf pkg (parser.fset parsed) res.2 st1 = (Ret e', st1) ->
     let h := afterLoad m (gop_of cf) res.1 None cf st1 in
     LoadFiles dir files conf st = (after_hook h.1 (res.1, e'), h.2) /\
     (forall o p, res.1 = Some o -> gopmod.Path m <> gopMod ->
        GopDeps cf = Some p ->
        heap (LoadFiles dir files conf st).2 !! p = Some (flags_of o))) /\
  (let parsed := parser_ParseDirEx (default [] (Fset cf)) dir
                   (parserConf_of cf m) in
   let res := cl_NewPackage "" pkg (clConf_of cf m (parser.fset parsed)) in
   let st1 := after st (prompt_events dir promptGenGo ++ [EvNewPackage pkg res]) in
   parser.err parsed = None ->
   forall rest, parser.pkgs parsed = (name, pkg) :: rest ->
   strings.HasSuffix name "_test" = false -> size (ast.Files pkg) <> 0%nat ->
   forall e e',
     res.2 = Some e ->
     (if IgnoreNotatedError cf then ignNotatedErrs e pkg (parser.fset parsed)
      else Ret e) = Ret e' ->
     LoadDir dir conf genTestPkg promptGenGo st =
     (Ret {| out := res.1; test := None; err := Some e' |}, st1)).
Proof.
  intros cf Hm. split.
  - intros parsed res st1 Herr Hpkgs e' Hrec h.
    pose proof (LoadFiles_resolve dir files conf st) as Hres. cbv zeta in Hres.
    fold cf in Hres. rewrite Hm in Hres. rewrite Hres.
    unfold LoadFiles_parsed. cbv zeta. fold parsed. rewrite Herr, Hpkgs.
    rewrite bind_run, NewPackage_run. fold res st1.
    rewrite bind_run, Hrec, bind_run. fold h.
    split; [by destruct h as [[[]|msg] st2]|].
    intros o p Ho Hne Hp. unfold h. rewrite Ho, afterLoad_Some.
    unfold afterLoad_state.
    destruct (String.eqb_spec (gopmod.Path m) gopMod) as [|_]; [done|].
    simpl. rewrite Hp. apply lookup_insert_eq.
  - intros parsed res st1 Herr rest Hpkgs Hsuf Hsize e e' He Hrec.
    pose proof (LoadDir_resolve dir conf genTestPkg promptGenGo st) as Hres.
    cbv zeta in Hres. fold cf in Hres. rewrite Hm in Hres. rewrite Hres.
    unfold LoadDir_parsed. cbv zeta. fold parsed. rewrite Herr, Hpkgs.
    cbn [length Nat.eqb LoadDir_loop]. rewrite Hsuf.
    rewrite (proj2 (Nat.eqb_neq _ _) Hsize).
    assert ((if match promptGenGo with b :: _ => b | [] => false end
             then emit (EvStderr ("GenGo " +:+ dir +:+ " ..."))
             else mret tt) st = (Ret tt, after st (prompt_events dir promptGenGo)))
      as Hprompt.
    { unfold prompt_events.
      destruct (match promptGenGo with b :: _ => b | [] => false end);
        [done | by rewrite after_nil]. }
    rewrite bind_run, bind_run, Hprompt, bind_run, NewPackage_run, after_after.
    fold res st1. rewrite He.
    rewrite bind_run.
    destruct (IgnoreNotatedError cf); unfold lift.
    + by rewrite Hrec.
    + by injection Hrec as <-.
Qed.

End LoadFilesClaims.

(** ** What a load changes *)

Section Frame.
Context `{C : Collaborators}.

Lemma load_frame_after conf st evs :
  (forall f r, EvSaveWithGopMod f r ∉ evs) -> load_frame conf st (after st evs).
Proof.
  intros Hns. split; [done|]. exists evs. split; [done|].
  intros f r Hin. by destruct (Hns f r).
Qed.

Lemma load_frame_refl conf st : load_frame conf st st.
Proof.
  rewrite <- (after_nil st) at 2. apply load_frame_after.
  by intros ? ? ?%elem_of_nil.
Qed.

Lemma load_frame_afterLoad_state mod_ gop o test conf st evs :
  (forall f r, EvSaveWithGopMod f r ∉ evs) ->
  load_frame conf st (afterLoad_state mod_ gop o test conf (after st evs)).
Proof.
  intros Hns. unfold afterLoad_state.
  destruct (String.eqb (gopmod.Path mod_) gopMod); [by apply load_frame_after|].
  split; simpl.
  - intros l Hl. destruct (GopDeps conf) as [p|]; [|done].
    rewrite lookup_insert_ne; [done | congruence].
  - eexists. split; [by rewrite <- app_assoc|].
    intros f r [Hin|Hin]%elem_of_app; [by destruct (Hns f r)|].
    destruct (_ && _); [|by apply elem_of_nil in Hin].
    apply list_elem_of_singleton in Hin as ->. by exists evs.
Qed.

Lemma LoadDir_frame dir conf genTestPkg promptGenGo st :
  load_frame (default new_Config conf) st
    (LoadDir dir conf genTestPkg promptGenGo st).2.
Proof.
  pose proof (LoadDir_resolve dir conf genTestPkg promptGenGo st) as Hres.
  cbv zeta in Hres. set (cf := default new_Config conf) in *.
  destruct (resolve_Mod cf dir) as [m|];
    [rewrite Hres | destruct Hres as [x ->]; apply load_frame_refl].
  unfold LoadDir_parsed. cbv zeta.
  set (parsed := parser_ParseDirEx (default [] (Fset cf)) dir (parserConf_of cf m)).
  destruct (parser.err parsed); [apply load_frame_refl|].
  destruct (length (parser.pkgs parsed) =? 0)%nat; [apply load_frame_refl|].
  rewrite bind_run.
  destruct (LoadDir_loop_any dir cf (parser.fset parsed)
              (clConf_of cf m (parser.fset parsed)) promptGenGo
              (parser.pkgs parsed) None None st) as (evs & E & H4).
  destruct (LoadDir_loop _ _ _ _ _ _ _ _ st) as [[l|msg] st1]; simpl in E; subst st1.
  2:{ by apply load_frame_after. }
  destruct l as [res|[o|] pt].
  - by apply load_frame_after.
  - rewrite LoadDir_tail_Finished. simpl. rewrite after_after.
    apply load_frame_afterLoad_state.
    intros f r [Hin|Hin]%elem_of_app; [by destruct (H4 f r)|].
    destruct pt as [pt0|]; [destruct genTestPkg|]; try by apply elem_of_nil in Hin.
    by apply list_elem_of_singleton in Hin.
  - by apply load_frame_after.
Qed.

Lemma LoadFiles_frame dir files conf st :
  load_frame (default new_Config conf) st (LoadFiles dir files conf st).2.
Proof.
  pose proof (LoadFiles_resolve dir files conf st) as Hres.
  cbv zeta in Hres. set (cf := default new_Config conf) in *.
  destruct (resolve_Mod cf dir) as [m|];
    [rewrite Hres | destruct Hres as [x ->]; apply load_frame_refl].
  unfold LoadFiles_parsed. cbv zeta.
  set (parsed := parser_ParseEntries (default [] (Fset cf)) files
                   (parserConf_of cf m)).
  destruct (parser.err parsed); [apply load_frame_refl|].
  destruct (parser.pkgs parsed) as [|[name pkg] [|np pkgs]];
    try apply load_frame_refl.
  rewrite bind_run, NewPackage_run. set (ev := EvNewPackage _ _).
  assert (forall f r, EvSaveWithGopMod f r ∉ [ev]) as Hns
    by (by intros f r ?%list_elem_of_singleton).
  rewrite bind_run.
  destruct (LoadFiles_reconcile_state cf pkg (parser.fset parsed)
              (cl_NewPackage "" pkg (clConf_of cf m (parser.fset parsed))).2
              (after st [ev])) as [x ->].
  destruct x as [e'|msg]; [|by apply load_frame_after].
  rewrite bind_run.
  destruct ((cl_NewPackage "" pkg (clConf_of cf m (parser.fset parsed))).1) as [o|].
  - rewrite afterLoad_Some. by apply load_frame_afterLoad_state.
  - destruct (afterLoad_None m (gop_of cf) None cf (after st [ev])) as [r ->].
    destruct r as [[]|msg]; by apply load_frame_after.
Qed.

(** C9.  [afterLoad] does nothing when the module is Go+ itself.
    Otherwise the only call it makes is at most one
    [mod.SaveWithGopMod(gop, flags)], made exactly when the module has a
    manifest file, [DontUpdateGoMod] is false and the accumulated flags
    (those of the production package or-ed with those of the test
    package) are not zero; and of the caller's memory it changes at most
    the [GopDeps] slot.  Over a whole [LoadDir] or [LoadFiles], the
    caller's memory changes at most at that slot, and [SaveWithGopMod]
    is called at most once, as the last call. *)
Theorem afterLoad_effects (mod_ : gopmod.Module) (gop : env.Gop)
    (out test : option gox.Package) (conf : Config) (st : State) :
  let r := afterLoad mod_ gop out test conf st in
  (gopmod.Path mod_ = gopMod -> r = (Ret tt, st)) /\
  (exists evs, trace r.2 = trace st ++ evs /\
     (evs = [] \/
      exists o, out = Some o /\
        let total := Z.lor (flags_of o) (from_option flags_of 0 test) in
        evs = [EvSaveWithGopMod total (Module_SaveWithGopMod mod_ gop total)] /\
        gopmod.Path mod_ <> gopMod /\ gopmod.HasModfile mod_ = true /\
        DontUpdateGoMod conf = false /\ total <> 0)) /\
  (forall o, out = Some o ->
     let total := Z.lor (flags_of o) (from_option flags_of 0 test) in
     gopmod.Path mod_ <> gopMod -> gopmod.HasModfile mod_ = true ->
     DontUpdateGoMod conf = false -> total <> 0 ->
     trace r.2 =
     trace st ++ [EvSaveWithGopMod total (Module_SaveWithGopMod mod_ gop total)]) /\
  (forall l, GopDeps conf <> Some l -> heap r.2 !! l = heap st !! l) /\
  (forall dir c genTestPkg promptGenGo,
     load_frame (default new_Config c) st
       (LoadDir dir c genTestPkg promptGenGo st).2) /\
  (forall dir files c,
     load_frame (default new_Config c) st (LoadFiles dir files c st).2).
Proof.
  cbv zeta.
  destruct (afterLoad_run mod_ gop out test conf st) as (H1 & H2 & H3 & H4).
  split; [exact H1|]. split; [exact H2|]. split; [exact H3|]. split; [exact H4|].
  split; intros; [apply LoadDir_frame | apply LoadFiles_frame].
Qed.

End Frame.

(** ** The small project *)

Lemma Demo_keyed_by_name pkgs compile save :
  Forall (fun np : string * ast.Package => ast.Name np.2 = np.1) pkgs ->
  keyed_by_name (C := Demo.world pkgs compile save).
Proof. intros H fset dir pc. exact H. Qed.

Lemma LoadDir_compile_failures_witness :
  let C := Demo.world Demo.both Demo.compile_test_fails Demo.save_ok in
  let r := LoadDir "/demo" (Some (Demo.conf None false)) true [] Demo.st0 in
  exists o, r.1 = Ret {| out := Some o; test := Some Demo.out10;
                         err := Some Demo.undefined_test |}.
Proof.
  intros C r.
  destruct (LoadDir_compile_failures (C := C) "/demo" (Some (Demo.conf None false))
              true [] Demo.st0) as (evs & Etr & _ & Hb).
  { apply Demo_keyed_by_name. repeat constructor. }
  simpl in Etr.
  destruct (Hb Demo.main_test (Some Demo.out10) Demo.undefined_test)
    as (o & _ & _ & _ & Hr).
  - rewrite <- Etr. apply list_elem_of_further, list_elem_of_here.
  - reflexivity.
  - exists o. exact Hr.
Defined.

Lemma LoadFiles_one_package_witness :
  let C := Demo.world Demo.both Demo.compile_ok Demo.save_ok in
  LoadFiles "/demo" ["a.gop"; "a_test.gop"] None Demo.st0 =
  (Ret (None, Some (errors.NewWith ErrMultiPackges "len(pkgs) != 1" "!=")), Demo.st0).
Proof.
  intros C.
  destruct (LoadFiles_one_package (C := C) "/demo" ["a.gop"; "a_test.gop"] None
              Demo.st0 Demo.mod_ eq_refl eq_refl) as [H _].
  apply H. discriminate.
Defined.

(** The compile of the one package fails with a nil output, and the
    caller asks for the flags: [LoadFiles] runs into the hook, which
    dereferences the nil package; [LoadDir] returns the error. *)
Lemma LoadFiles_always_afterLoad_witness :
  let C := Demo.world [("main", Demo.main)] Demo.compile_main_fails Demo.save_ok in
  let conf := Some (Demo.conf (Some 7%nat) false) in
  let st1 := after Demo.st0 [EvNewPackage Demo.main (None, Some Demo.undefined)] in
  LoadFiles "/demo" ["a.gop"] conf Demo.st0 = (Panic "nil pointer dereference", st1) /\
  LoadDir "/demo" conf true [] Demo.st0 =
  (Ret {| out := None; test := None; err := Some Demo.undefined |}, st1).
Proof.
  intros C conf st1.
  destruct (LoadFiles_always_afterLoad (C := C) "/demo" ["a.gop"] conf true []
              Demo.st0 Demo.mod_ "main" Demo.main eq_refl) as [HF HD].
  split.
  - destruct (HF eq_refl eq_refl (Some Demo.undefined) eq_refl) as [-> _].
    reflexivity.
  - refine (HD eq_refl [] eq_refl eq_refl _ Demo.undefined Demo.undefined eq_refl eq_refl).
    by vm_compute.
Defined.

(** ** Where the code departs from what it sets out to do *)

(** C2.  The same announced error: when the compile of the production
    package fails with it, [LoadDir] with [IgnoreNotatedError] returns
    [ErrIgnoreNotated]; when the compile of the test package fails with
    it, [LoadDir] returns the error as it is, although [ignNotatedErrs]
    maps it to [ErrIgnoreNotated] there too. *)
Theorem LoadDir_test_error_not_reconciled :
  let conf := Some (Demo.conf None true) in
  let prod := LoadDir (C := Demo.world Demo.both Demo.compile_main_fails Demo.save_ok)
                "/demo" conf true [] Demo.st0 in
  let test_ := LoadDir (C := Demo.world Demo.both Demo.compile_test_fails Demo.save_ok)
                 "/demo" conf true [] Demo.st0 in
  prod.1 = Ret {| out := None; test := None; err := Some ErrIgnoreNotated |} /\
  ignNotatedErrs Demo.undefined_test Demo.main_test Demo.fset =
    Ret ErrIgnoreNotated /\
  test_.1 = Ret {| out := Some Demo.out01; test := Some Demo.out10;
                   err := Some Demo.undefined_test |}.
Proof. vm_compute. repeat split. Qed.

(** C3.  A directory with a package [main] and a package [aux] without
    Go+ files: when the loop visits [aux] first, [aux] is skipped and
    [main] is loaded; when it visits [main] first, [aux] makes [LoadDir]
    fail with [ErrMultiPackges]. *)
Theorem LoadDir_empty_package_order :
  let conf := Some (Demo.conf None false) in
  let aux_first :=
    LoadDir (C := Demo.world [("aux", Demo.aux); ("main", Demo.main)]
                    Demo.compile_ok Demo.save_ok) "/demo" conf true [] Demo.st0 in
  let main_first :=
    LoadDir (C := Demo.world [("main", Demo.main); ("aux", Demo.aux)]
                    Demo.compile_ok Demo.save_ok) "/demo" conf true [] Demo.st0 in
  size (ast.Files Demo.aux) = 0%nat /\
  aux_first.1 = Ret {| out := Some Demo.out01; test := None; err := None |} /\
  main_first.1 = Ret {| out := None; test := None; err := Some ErrMultiPackges |}.
Proof. vm_compute. repeat split. Qed.

(** * Further properties *)

(** ** File names *)

Lemma HasSuffix_spec s suffix :
  strings.HasSuffix s suffix = true <-> ends_with s suffix.
Proof.
  unfold strings.HasSuffix, ends_with. cbv zeta.
  rewrite andb_true_iff, Nat.leb_le, String.eqb_eq. split.
  - intros [Hle Hsub].
    destruct (substring_split s (String.length s - String.length suffix)
                (String.length suffix)) as (pre & post & E & Hl & Hm); [lia|].
    rewrite Hsub in E. exists pre. rewrite E at 1.
    apply (f_equal String.length) in E. rewrite !string_app_length in E.
    destruct post; [by rewrite string_app_nil_r | simpl in E; lia].
  - intros [pre ->]. rewrite string_app_length. split; [lia|].
    replace (String.length pre + String.length suffix - String.length suffix)%nat
      with (String.length pre) by lia.
    rewrite <- (string_app_nil_r suffix) at 2. apply substring_app.
Qed.

Lemma list_ascii_of_string_app s t :
  list_ascii_of_string (s +:+ t) = list_ascii_of_string s ++ list_ascii_of_string t.
Proof. induction s as [|c s IH]; simpl; [done | by rewrite IH]. Qed.

Lemma Ext_loop_ext_bytes x r ext :
  Forall ext_byte x -> path.Ext_loop (rev x ++ r) ext = path.Ext_loop r (x ++ ext).
Proof.
  intros Hx. revert r ext. induction Hx as [|c x [Hs Hd] Hx IH]; intros r ext; [done|].
  simpl. rewrite <- app_assoc. rewrite IH. simpl.
  destruct (Ascii.eqb_spec c "/"); [done|]. destruct (Ascii.eqb_spec c "."); done.
Qed.

(** The extension of a name that ends with a dot and bytes of an
    extension is that ending. *)
Lemma Ext_suffix pre x :
  Forall ext_byte (list_ascii_of_string x) ->
  path.Ext (pre +:+ String "." x) = String "." x.
Proof.
  intros Hx. unfold path.Ext. rewrite list_ascii_of_string_app. simpl.
  rewrite rev_app_distr. simpl. rewrite <- app_assoc. simpl.
  rewrite Ext_loop_ext_bytes by done. simpl. rewrite app_nil_r.
  by rewrite string_of_list_ascii_of_string.
Qed.

Lemma string_app_assoc a b c : (a +:+ b) +:+ c = a +:+ b +:+ c.
Proof. induction a as [|x a IH]; simpl; [done | by rewrite IH]. Qed.

(** X1.  [FilterNoTestFiles] rejects a file exactly when its name ends
    with [test.gox] (no underscore is asked for), with [_test.gop] or with
    [_test.go]; every other file is kept. *)
Theorem FilterNoTestFiles_rejects (fname : string) :
  FilterNoTestFiles fname = false <->
  ends_with fname "test.gox" \/ ends_with fname "_test.gop" \/
  ends_with fname "_test.go".
Proof.
  split.
  - unfold FilterNoTestFiles. cbv zeta.
    destruct (String.eqb (path.Ext fname) ".gox");
      [rewrite negb_false_iff, HasSuffix_spec; auto|].
    destruct (String.eqb (path.Ext fname) ".gop");
      [rewrite negb_false_iff, HasSuffix_spec; auto|].
    destruct (String.eqb (path.Ext fname) ".go");
      [rewrite negb_false_iff, HasSuffix_spec; auto | done].
  - assert (forall pre stem x, Forall ext_byte (list_ascii_of_string x) ->
              path.Ext (pre +:+ stem +:+ String "." x) = String "." x) as Hext.
    { intros pre stem x Hx. rewrite <- string_app_assoc. by apply Ext_suffix. }
    intros [[pre ->]|[[pre ->]|[pre ->]]]; unfold FilterNoTestFiles; cbv zeta.
    + change "test.gox" with ("test" +:+ String "." "gox").
      rewrite (Hext pre "test" "gox") by (simpl; repeat (apply Forall_cons_2; [split; discriminate|]);
          apply Forall_nil_2).
      simpl. rewrite negb_false_iff, HasSuffix_spec. by exists pre.
    + change "_test.gop" with ("_test" +:+ String "." "gop").
      rewrite (Hext pre "_test" "gop") by (simpl; repeat (apply Forall_cons_2; [split; discriminate|]);
          apply Forall_nil_2).
      simpl. rewrite negb_false_iff, HasSuffix_spec. by exists pre.
    + change "_test.go" with ("_test" +:+ String "." "go").
      rewrite (Hext pre "_test" "go") by (simpl; repeat (apply Forall_cons_2; [split; discriminate|]);
          apply Forall_nil_2).
      simpl. rewrite negb_false_iff, HasSuffix_spec. by exists pre.
Qed.

Example FilterNoTestFiles_names :
  FilterNoTestFiles "a_test.gop" = false /\ FilterNoTestFiles "contest.gox" = false /\
  FilterNoTestFiles "a.gop" = true /\ FilterNoTestFiles "a_test.txt" = true /\
  FilterNoTestFiles "_test.go" = false /\ FilterNoTestFiles "test.go" = true.
Proof. repeat split. Qed.

(** ** More on notated errors *)

(** X2.  An error that [ErrorPos] gives no position is never notated,
    whatever the package and the file set: [isNotatedErr] answers false
    without looking at a file.  A frame built by [errors.NewWith] and an
    error list are such errors, also around a notated error, and
    [ignNotatedErrs] returns a frame as it is. *)
Theorem isNotatedErr_no_position (err : error) (pkg : ast.Package)
    (fset : token.FileSet) :
  ErrorPos err = token.NoPos ->
  isNotatedErr err pkg fset = Ret false /\
  (forall e code fn, isNotatedErr (errors.NewWith e code fn) pkg fset = Ret false) /\
  (forall v, isNotatedErr (List v) pkg fset = Ret false) /\
  (forall e code fn,
     ignNotatedErrs (errors.NewWith e code fn) pkg fset =
     Ret (errors.NewWith e code fn)).
Proof.
  intros Hp. unfold ignNotatedErrs, isNotatedErr. rewrite Hp. simpl. done.
Qed.

Lemma isNotatedErr_no_position_witness :
  isNotatedErr ErrIgnoreNotated Demo.main Demo.fset = Ret false /\
  isNotatedErr (errors.NewWith Demo.undefined "cl.NewPackage" "cl") Demo.main
    Demo.fset = Ret false.
Proof.
  destruct (isNotatedErr_no_position ErrIgnoreNotated Demo.main Demo.fset eq_refl)
    as (H1 & H2 & _).
  split; [exact H1 | apply H2].
Defined.

Lemma filter_idemp {A} (P : A -> Prop) `{!forall x, Decision (P x)} (l : list A) :
  filter P (filter P l) = filter P l.
Proof.
  induction l as [|x l IH]; [done|]. rewrite filter_cons.
  destruct (decide (P x)); [|done]. rewrite filter_cons, decide_True by done.
  by rewrite IH.
Qed.

(** X3.  On a well-formed file set and package, [ignNotatedErrs] is
    idempotent: reconciling what it returned returns the same error. *)
Theorem ignNotatedErrs_idempotent (err r : error) (pkg : ast.Package)
    (fset : token.FileSet) :
  wf_FileSet fset -> wf_Package pkg fset ->
  ignNotatedErrs err pkg fset = Ret r -> ignNotatedErrs r pkg fset = Ret r.
Proof.
  intros Hf Hp.
  assert (ignNotatedErrs ErrIgnoreNotated pkg fset = Ret ErrIgnoreNotated) as Hsent
    by done.
  destruct err as [msg|pos msg|pos msg|pos pth e|v|e code fn];
    try (unfold ignNotatedErrs at 1;
         rewrite (isNotatedErr_notatedb _ pkg fset Hf Hp);
         destruct (notatedb pkg fset _) eqn:E; simpl; intros [= <-]; [exact Hsent|];
         unfold ignNotatedErrs;
         rewrite (isNotatedErr_notatedb _ pkg fset Hf Hp), E; done).
  unfold ignNotatedErrs at 1.
  rewrite (ignNotatedErrs_loop_filter v pkg fset [] Hf Hp). simpl.
  destruct (filter _ v) as [|x ret] eqn:E; simpl; intros [= <-]; [exact Hsent|].
  unfold ignNotatedErrs.
  rewrite (ignNotatedErrs_loop_filter _ pkg fset [] Hf Hp). simpl.
  by rewrite <- E, filter_idemp, E.
Qed.

Lemma ignNotatedErrs_idempotent_witness :
  ignNotatedErrs (List [ErrMultiPackges]) Demo.main Demo.fset =
  Ret (List [ErrMultiPackges]).
Proof.
  destruct wf_Demo as (Hf & Hp & _).
  apply (ignNotatedErrs_idempotent (List [Demo.undefined; ErrMultiPackges])
           (List [ErrMultiPackges]) Demo.main Demo.fset Hf Hp).
  reflexivity.
Defined.

Lemma filter_nil_Forall {A} (P : A -> Prop) `{!forall x, Decision (P x)} (l : list A) :
  filter P l = [] <-> Forall (fun x => ~ P x) l.
Proof.
  induction l as [|x l IH]; [by split|]. rewrite filter_cons, Forall_cons.
  destruct (decide (P x)); [split; [done | tauto] | tauto].
Qed.

Lemma IgnoreNotated_iff err :
  IgnoreNotated err = true <-> errors.Err err = ErrIgnoreNotated.
Proof.
  unfold IgnoreNotated, ErrIgnoreNotated, errors.New.
  destruct (errors.Err err); try (split; [discriminate | intros [=]]).
  rewrite String.eqb_eq. split; [by intros -> | by intros [= ->]].
Qed.

(** X4.  [IgnoreNotated] looks through the frames of [errors.NewWith];
    and on a well-formed file set and package, it recognises what
    [ignNotatedErrs] returns for an error list exactly when every element
    of the list is notated. *)
Theorem IgnoreNotated_reconciled (v : list error) (r : error)
    (pkg : ast.Package) (fset : token.FileSet) :
  wf_FileSet fset -> wf_Package pkg fset ->
  ignNotatedErrs (List v) pkg fset = Ret r ->
  (IgnoreNotated r = true <-> Forall (fun e => notated e pkg fset) v) /\
  (forall code fn, IgnoreNotated (errors.NewWith r code fn) = IgnoreNotated r).
Proof.
  intros Hf Hp. unfold ignNotatedErrs.
  rewrite (ignNotatedErrs_loop_filter v pkg fset [] Hf Hp). simpl.
  intros Hr. split; [|done].
  assert (filter (fun e => notatedb pkg fset e = false) v = [] <->
          Forall (fun e => notated e pkg fset) v) as Hall.
  { rewrite filter_nil_Forall.
    split; intros H; (eapply Forall_impl; [exact H|]); simpl; intros e He.
    - apply notatedb_true; [done..|]. by destruct (notatedb pkg fset e).
    - apply notatedb_true in He; [|done..]. by rewrite He. }
  rewrite <- Hall.
  destruct (filter _ v) as [|x ret]; simpl in Hr; injection Hr as <-; done.
Qed.

Lemma IgnoreNotated_reconciled_witness :
  IgnoreNotated ErrIgnoreNotated = true <->
  Forall (fun e => notated e Demo.main Demo.fset) [Demo.undefined].
Proof.
  destruct wf_Demo as (Hf & Hp & _).
  apply (IgnoreNotated_reconciled [Demo.undefined] ErrIgnoreNotated Demo.main
           Demo.fset Hf Hp).
  reflexivity.
Defined.

Lemma string_app_suffix p1 r1 p2 r2 :
  p1 +:+ r1 = p2 +:+ r2 -> (String.length p1 <= String.length p2)%nat ->
  exists d, r1 = d +:+ r2.
Proof.
  revert p2. induction p1 as [|c p1 IH]; intros p2 H Hl; simpl in *.
  - by exists p2.
  - destruct p2 as [|c2 p2]; simpl in *; [lia|].
    injection H as -> H. apply (IH p2 H). lia.
Qed.

Lemma contains_app_l sub d s : contains sub s -> contains sub (d +:+ s).
Proof.
  intros (n & pre & post & -> & Hn). exists (String.length d + n)%nat.
  exists (d +:+ pre), post. rewrite string_app_assoc, string_app_length. split; [done|lia].
Qed.

(** X5.  Which [//] of the line is taken does not matter: on a
    well-formed file set and package, [isNotatedErr] answers true exactly
    when the line of the error's position has some [//] with
    [compile error:] somewhere after it. *)
Theorem isNotatedErr_any_marker (err : error) (pkg : ast.Package)
    (fset : token.FileSet) :
  wf_FileSet fset -> wf_Package pkg fset ->
  isNotatedErr err pkg fset = Ret true <->
  exists f gopf start end_ text a b,
    f ∈ fset /\ in_file f (ErrorPos err) /\
    ast.Files pkg !! token.name f = Some gopf /\
    line_range f (ErrorPos err) start end_ /\
    bytes_in (ast.Code gopf) start end_ text /\
    text = a +:+ "//" +:+ b /\ contains "compile error:" b.
Proof.
  intros Hf Hp.
  destruct (isNotatedErr_decides err pkg fset Hf Hp) as (x & -> & Hx).
  split.
  - intros [= ->]. destruct (proj1 Hx eq_refl)
      as (f & gopf & s & e & text & pre & rest & H1 & H2 & H3 & H4 & H5 & H6 & _ & H7).
    exists f, gopf, s, e, text, pre, rest. done.
  - intros (f & gopf & s & e & text & a & b & H1 & H2 & H3 & H4 & H5 & H6 & H7).
    f_equal. apply Hx.
    destruct (strings.find text "//") as [n|] eqn:Fn.
    2:{ exfalso. eapply find_None; [exact Fn|]. by exists a, b. }
    apply find_Some in Fn as [(pre & rest & Et & Hn) Hfirst].
    exists f, gopf, s, e, text, pre, rest.
    split; [done|]. split; [done|]. split; [done|]. split; [done|]. split; [done|].
    split; [done|]. split; [by rewrite Hn|].
    assert (String.length pre <= String.length a)%nat as Hle.
    { destruct (Nat.le_gt_cases (String.length pre) (String.length a)) as [|Hlt];
        [done|]. exfalso. apply (Hfirst (String.length a)); [lia|]. by exists a, b. }
    destruct (string_app_suffix (pre +:+ "//") rest (a +:+ "//") b) as [d ->].
    + rewrite !string_app_assoc. congruence.
    + rewrite !string_app_length. lia.
    + by apply contains_app_l.
Qed.

Lemma isNotatedErr_any_marker_witness :
  isNotatedErr Demo.undefined Demo.main Demo.fset = Ret true <->
  exists f gopf start end_ text a b,
    f ∈ Demo.fset /\ in_file f (ErrorPos Demo.undefined) /\
    ast.Files Demo.main !! token.name f = Some gopf /\
    line_range f (ErrorPos Demo.undefined) start end_ /\
    bytes_in (ast.Code gopf) start end_ text /\
    text = a +:+ "//" +:+ b /\ contains "compile error:" b.
Proof.
  destruct wf_Demo as (Hf & Hp & _).
  exact (isNotatedErr_any_marker Demo.undefined Demo.main Demo.fset Hf Hp).
Defined.

Lemma notated_same_line e1 e2 pkg fset f start end_ :
  wf_FileSet fset -> f ∈ fset ->
  in_file f (ErrorPos e1) -> in_file f (ErrorPos e2) ->
  line_range f (ErrorPos e1) start end_ -> line_range f (ErrorPos e2) start end_ ->
  notated e1 pkg fset -> notated e2 pkg fset.
Proof.
  intros Hf Hin Hp1 Hp2 Hl1 Hl2
    (f' & gopf & s & e & text & pre & rest & H1 & H2 & H3 & H4 & H5 & H6 & H7 & H8).
  assert (f' = f) as ->.
  { pose proof (proj2 (FileSet_File_spec fset _ f' Hf) (conj H1 H2)).
    pose proof (proj2 (FileSet_File_spec fset _ f Hf) (conj Hin Hp1)). congruence. }
  assert (StronglySorted Z.lt (token.lines f)) as Hs.
  { destruct Hf as [Hf _]. rewrite Forall_forall in Hf. by destruct (Hf f Hin) as (_ & ? & _). }
  destruct (line_range_unique _ _ _ _ _ _ Hs H4 Hl1) as [-> ->].
  exists f, gopf, start, end_, text, pre, rest. done.
Qed.

(** X6.  The answer depends on the line alone: on a well-formed file set
    and package, two errors of any kind whose positions lie on the same
    line of the same file are classified alike. *)
Theorem isNotatedErr_same_line (e1 e2 : error) (pkg : ast.Package)
    (fset : token.FileSet) (f : token.File) (start end_ : Z) :
  wf_FileSet fset -> wf_Package pkg fset -> f ∈ fset ->
  in_file f (ErrorPos e1) -> in_file f (ErrorPos e2) ->
  line_range f (ErrorPos e1) start end_ -> line_range f (ErrorPos e2) start end_ ->
  isNotatedErr e1 pkg fset = isNotatedErr e2 pkg fset.
Proof.
  intros Hf Hp Hin Hp1 Hp2 Hl1 Hl2.
  destruct (isNotatedErr_decides e1 pkg fset Hf Hp) as (b1 & -> & H1).
  destruct (isNotatedErr_decides e2 pkg fset Hf Hp) as (b2 & -> & H2).
  f_equal. apply eq_true_iff_eq. rewrite H1, H2.
  split; by apply (notated_same_line _ _ pkg fset f start end_).
Qed.

Lemma isNotatedErr_same_line_witness :
  isNotatedErr Demo.undefined Demo.main Demo.fset =
  isNotatedErr (ImportError 40 "fmt" ErrMultiPackges) Demo.main Demo.fset.
Proof.
  destruct wf_Demo as (Hf & Hp & _).
  apply (isNotatedErr_same_line Demo.undefined (ImportError 40 "fmt" ErrMultiPackges)
           Demo.main Demo.fset Demo.file 0 48 Hf Hp).
  - apply list_elem_of_here.
  - split; [discriminate | simpl; lia].
  - split; [discriminate | simpl; lia].
  - exists 0%nat. simpl. repeat split; lia.
  - exists 0%nat. simpl. repeat split; lia.
Defined.

(** ** Dependency flags *)

Section DepsExtras.
Context `{C : Collaborators}.

Lemma ForEachFile_or_perm fs fs' flags :
  fs ≡ₚ fs' -> ForEachFile_or fs flags = ForEachFile_or fs' flags.
Proof.
  intros Hp. revert flags.
  induction Hp as [|[n f] fs fs' Hp IH|[n f] [n' f'] fs|fs1 fs2 fs3 H1 IH1 H2 IH2];
    intros flags; simpl.
  - done.
  - apply IH.
  - f_equal. rewrite <- !Z.lor_assoc. f_equal. apply Z.lor_comm.
  - by rewrite IH1.
Qed.

Lemma ForEachFile_or_zero fs flags :
  ForEachFile_or fs flags = 0 <->
  flags = 0 /\ Forall (fun f : string * gox.File => gox.CheckGopDeps f.2 = 0) fs.
Proof.
  revert flags. induction fs as [|[n f] fs IH]; intros flags; simpl.
  - split; [by intros -> | by intros [-> _]].
  - rewrite IH, Z.lor_eq_0_iff, Forall_cons. simpl. tauto.
Qed.

(** X7.  [pkg.ForEachFile] ranges over a map: the flags that
    [checkGopDeps] returns do not depend on the order in which the files
    are visited. *)
Theorem checkGopDeps_order (fs fs' : list (string * gox.File)) :
  fs ≡ₚ fs' ->
  checkGopDeps (Some {| gox.files := fs |}) =
  checkGopDeps (Some {| gox.files := fs' |}).
Proof. intros Hp. simpl. f_equal. by apply ForEachFile_or_perm. Qed.

(** X8.  For a module other than Go+ itself that has a manifest file,
    and with [DontUpdateGoMod] unset, [afterLoad] leaves out the call of
    [SaveWithGopMod] exactly when no file of the production package and
    no file of the test package reports a dependency. *)
Theorem afterLoad_no_save_iff (mod_ : gopmod.Module) (gop : env.Gop)
    (o : gox.Package) (test : option gox.Package) (conf : Config) (st : State) :
  gopmod.Path mod_ <> gopMod -> gopmod.HasModfile mod_ = true ->
  DontUpdateGoMod conf = false ->
  trace (afterLoad mod_ gop (Some o) test conf st).2 = trace st <->
  Forall (fun f : string * gox.File => gox.CheckGopDeps f.2 = 0)
    (gox.files o ++ from_option gox.files [] test).
Proof.
  intros Hne Hm Hd. rewrite afterLoad_Some. unfold afterLoad_state. simpl.
  destruct (String.eqb_spec (gopmod.Path mod_) gopMod) as [|_]; [done|].
  simpl. rewrite Hm, Hd. simpl.
  assert (Z.lor (flags_of o) (from_option flags_of 0 test) = 0 <->
          Forall (fun f : string * gox.File => gox.CheckGopDeps f.2 = 0)
            (gox.files o ++ from_option gox.files [] test)) as Hz.
  { rewrite Z.lor_eq_0_iff, Forall_app. unfold flags_of.
    rewrite ForEachFile_or_zero.
    destruct test as [t|]; simpl; [rewrite ForEachFile_or_zero|]; split;
      try tauto. intros [[_ H] _]. auto. }
  rewrite <- Hz.
  destruct (Z.eqb_spec (Z.lor (flags_of o) (from_option flags_of 0 test)) 0)
    as [Hz0|Hnz]; simpl.
  - rewrite app_nil_r. tauto.
  - split; [|done]. intros H. apply (f_equal length) in H.
    rewrite length_app in H. simpl in H. lia.
Qed.

End DepsExtras.

Lemma checkGopDeps_order_witness :
  checkGopDeps (Some {| gox.files := [("a.go", {| gox.CheckGopDeps := 1 |});
                                      ("b.go", {| gox.CheckGopDeps := 4 |})] |}) =
  checkGopDeps (Some {| gox.files := [("b.go", {| gox.CheckGopDeps := 4 |});
                                      ("a.go", {| gox.CheckGopDeps := 1 |})] |}).
Proof.
  apply checkGopDeps_order. apply Permutation_swap.
Defined.

Lemma afterLoad_no_save_iff_witness :
  let C := Demo.world Demo.both Demo.compile_ok Demo.save_ok in
  trace (afterLoad Demo.mod_ Demo.gop (Some Demo.out01) None
           (Demo.conf None false) Demo.st0).2 = trace Demo.st0 <->
  Forall (fun f : string * gox.File => gox.CheckGopDeps f.2 = 0)
    (gox.files Demo.out01 ++ []).
Proof.
  intros C.
  apply (afterLoad_no_save_iff (C := C) Demo.mod_ Demo.gop Demo.out01 None
           (Demo.conf None false) Demo.st0); [discriminate | reflexivity | reflexivity].
Defined.

(** ** More on the loaders *)

Section LoadExtras.
Context `{C : Collaborators}.

Lemma prompt_events_loop_event dir prompt :
  Forall (loop_event dir prompt) (prompt_events dir prompt).
Proof.
  unfold prompt_events. destruct prompt as [|[] prompt]; simpl; try done.
  apply Forall_singleton. right. done.
Qed.

Lemma prompt_run dir prompt st :
  (if match prompt with b :: _ => b | [] => false end
   then emit (EvStderr ("GenGo " +:+ dir +:+ " ...")) else mret tt) st =
  (Ret tt, after st (prompt_events dir prompt)).
Proof.
  unfold prompt_events. destruct (match prompt with b :: _ => b | [] => false end);
    [done | by rewrite after_nil].
Qed.

(** The loop adds compiles and prompts only, and a [return] of the loop
    carries an error and no test package. *)
Lemma LoadDir_loop_shape dir conf fset clConf prompt pkgs out pkgTest st :
  let r := LoadDir_loop dir conf fset clConf prompt pkgs out pkgTest st in
  exists evs, r.2 = after st evs /\ Forall (loop_event dir prompt) evs /\
    (forall x, r.1 = Ret (Returned x) -> is_Some (err x) /\ test x = None).
Proof.
  revert out pkgTest st.
  induction pkgs as [|[name pkg] pkgs IH]; intros out pkgTest st;
    cbn [LoadDir_loop]; cbv zeta.
  { exists []. rewrite after_nil. split; [done|]. split; [done|]. by intros x [=]. }
  assert (forall e, exists evs : list Event, st = after st evs /\
            Forall (loop_event dir prompt) evs /\
            (forall x,
               Ret (Returned {| out := None; test := None; err := Some e |}) =
               Ret (Returned x) -> is_Some (err x) /\ test x = None)) as Hquiet.
  { intros e. exists []. rewrite after_nil. split; [done|]. split; [done|].
    intros x [= <-]. simpl. eauto. }
  destruct (strings.HasSuffix name "_test").
  { destruct pkgTest; [apply Hquiet | apply IH]. }
  destruct out; [apply Hquiet|].
  destruct (size (ast.Files pkg) =? 0)%nat; [apply IH|].
  rewrite bind_run, prompt_run, bind_run, NewPackage_run, after_after.
  set (res := cl_NewPackage "" pkg clConf). set (ev := EvNewPackage pkg res).
  assert (Forall (loop_event dir prompt) (prompt_events dir prompt ++ [ev])) as Hev.
  { apply Forall_app. split; [apply prompt_events_loop_event|].
    apply Forall_singleton. left. by exists pkg, res. }
  destruct (res.2) as [e|].
  - rewrite bind_run.
    set (rec := if IgnoreNotatedError conf then lift (ignNotatedErrs e pkg fset)
                else mret e).
    assert (exists x, rec (after st (prompt_events dir prompt ++ [ev])) =
                      (x, after st (prompt_events dir prompt ++ [ev]))) as [x ->].
    { unfold rec. destruct (IgnoreNotatedError conf); by eexists. }
    exists (prompt_events dir prompt ++ [ev]).
    destruct x as [e'|msg]; simpl; (split; [done|]; split; [done|]); [|done].
    intros x [= <-]. simpl. eauto.
  - destruct (IH res.1 pkgTest (after st (prompt_events dir prompt ++ [ev])))
      as (evs & E & Hevs & Hret).
    exists ((prompt_events dir prompt ++ [ev]) ++ evs).
    rewrite <- (after_after st (prompt_events dir prompt ++ [ev]) evs).
    split; [done|]. split; [by apply Forall_app|]. done.
Qed.

(** How a run of [LoadDir] ends: either with nothing but compiles and
    prompts behind it, and then any result carries an error and no test
    package; or through the hook, on the production package that
    compiled. *)
Lemma LoadDir_outcome dir conf genTestPkg promptGenGo st :
  let cf := default new_Config conf in
  let r := LoadDir dir conf genTestPkg promptGenGo st in
  exists evs, Forall (loop_event dir promptGenGo) evs /\
    ((r.2 = after st evs /\
      forall res, r.1 = Ret res -> is_Some (err res) /\ test res = None) \/
     (exists m o t e,
        resolve_Mod cf dir = Some m /\
        r = (Ret {| out := Some o; test := t; err := e |},
             afterLoad_state m (gop_of cf) o t cf (after st evs)) /\
        (genTestPkg = false -> t = None /\ e = None))).
Proof.
  intros cf r. subst r.
  assert (forall x : Loaded, is_Some (err x) /\ test x = None ->
            exists evs, Forall (loop_event dir promptGenGo) evs /\
              (((Ret x, st).2 = after st evs /\
                forall res, (Ret x, st).1 = Ret res ->
                            is_Some (err res) /\ test res = None) \/
               (exists m o t e,
                  resolve_Mod cf dir = Some m /\
                  (Ret x, st) =
                  (Ret {| out := Some o; test := t; err := e |},
                   afterLoad_state m (gop_of cf) o t cf (after st evs)) /\
                  (genTestPkg = false -> t = None /\ e = None)))) as Hquiet.
  { intros x Hx. exists []. split; [done|]. left. rewrite after_nil.
    split; [done|]. by intros res [= <-]. }
  rewrite LoadDir_staged. cbv zeta. fold cf.
  assert (forall m, resolve_Mod cf dir = Some m ->
            exists evs, Forall (loop_event dir promptGenGo) evs /\
              (((LoadDir_parsed dir cf genTestPkg promptGenGo m st).2 = after st evs /\
                forall res, (LoadDir_parsed dir cf genTestPkg promptGenGo m st).1 =
                            Ret res -> is_Some (err res) /\ test res = None) \/
               (exists m' o t e,
                  resolve_Mod cf dir = Some m' /\
                  LoadDir_parsed dir cf genTestPkg promptGenGo m st =
                  (Ret {| out := Some o; test := t; err := e |},
                   afterLoad_state m' (gop_of cf) o t cf (after st evs)) /\
                  (genTestPkg = false -> t = None /\ e = None)))) as Hparsed.
  { intros m Hm. unfold LoadDir_parsed. cbv zeta.
    set (parsed := parser_ParseDirEx (default [] (Fset cf)) dir (parserConf_of cf m)).
    destruct (parser.err parsed); [apply Hquiet; simpl; eauto|].
    destruct (length (parser.pkgs parsed) =? 0)%nat; [apply Hquiet; simpl; eauto|].
    rewrite bind_run.
    destruct (LoadDir_loop_shape dir cf (parser.fset parsed)
                (clConf_of cf m (parser.fset parsed)) promptGenGo
                (parser.pkgs parsed) None None st) as (evs & E & Hevs & Hret).
    destruct (LoadDir_loop _ _ _ _ _ _ _ _ st) as [[l|msg] st1];
      simpl in E, Hret; subst st1.
    2:{ exists evs. split; [done|]. left. by split. }
    destruct l as [x|[o|] pt].
    - exists evs. split; [done|]. left. split; [done|].
      intros res [= <-]. by apply Hret.
    - rewrite LoadDir_tail_Finished.
      set (evt := match pt with
                  | Some pt0 =>
                      if genTestPkg
                      then [EvNewPackage pt0
                              (cl_NewPackage "" pt0
                                 (clConf_of cf m (parser.fset parsed)))]
                      else []
                  | None => []
                  end).
      exists (evs ++ evt). split.
      { apply Forall_app. split; [done|]. unfold evt.
        destruct pt as [pt0|]; [destruct genTestPkg|]; try done.
        apply Forall_singleton. left. by eexists _, _. }
      right. eexists m, o, _, _. split; [done|]. rewrite after_after.
      split; [done|]. intros ->. by destruct pt.
    - exists evs. split; [done|]. left. split; [done|].
      intros res [= <-]. simpl. eauto. }
  unfold resolve_Mod in *.
  destruct (Mod cf) as [m|]; [by apply Hparsed|].
  destruct (LoadMod dir) as [[m|] [e|]].
  - apply Hquiet. simpl. eauto.
  - by apply Hparsed.
  - apply Hquiet. simpl. eauto.
  - exists []. split; [done|]. left. rewrite after_nil. by split.
Qed.

End LoadExtras.

Section ResultExtras.
Context `{C : Collaborators}.

Lemma loop_event_not_save dir prompt evs flags x :
  Forall (loop_event dir prompt) evs -> EvSaveWithGopMod flags x ∉ evs.
Proof.
  intros H Hin. rewrite Forall_forall in H.
  destruct (H _ Hin) as [(pkg & res & [=])|[[=] _]].
Qed.

(** X9.  What [LoadDir] returns: without an error, the production
    package is not nil; and a test package is returned only when it was
    asked for, and only together with a production package. *)
Theorem LoadDir_result_shape (dir : string) (conf : option Config)
    (genTestPkg : bool) (promptGenGo : list bool) (st : State) (res : Loaded) :
  (LoadDir dir conf genTestPkg promptGenGo st).1 = Ret res ->
  (err res = None -> is_Some (out res)) /\
  (is_Some (test res) -> is_Some (out res) /\ genTestPkg = true).
Proof.
  intros Hr.
  destruct (LoadDir_outcome dir conf genTestPkg promptGenGo st)
    as (evs & _ & [[_ H]|(m & o & t & e & _ & E & Hg)]).
  - destruct (H res Hr) as [[e He] Ht]. rewrite He, Ht. split; [done|].
    by intros [? [=]].
  - rewrite E in Hr. injection Hr as <-. simpl. split; [eauto|].
    intros Ht. split; [eauto|]. destruct genTestPkg; [done|].
    destruct (Hg eq_refl) as [-> _]. by destruct Ht.
Qed.

(** X10.  [LoadDir] calls [SaveWithGopMod] only for a module other than
    Go+ itself that has a manifest file, with [DontUpdateGoMod] unset,
    with flags that are not zero, and only when it returns a production
    package. *)
Theorem LoadDir_saves_only_when (dir : string) (conf : option Config)
    (genTestPkg : bool) (promptGenGo : list bool) (st : State)
    (evs : list Event) (flags : Z) (x : option error) :
  let cf := default new_Config conf in
  let r := LoadDir dir conf genTestPkg promptGenGo st in
  trace r.2 = trace st ++ evs -> EvSaveWithGopMod flags x ∈ evs ->
  exists m, resolve_Mod cf dir = Some m /\ gopmod.Path m <> gopMod /\
    gopmod.HasModfile m = true /\ DontUpdateGoMod cf = false /\ flags <> 0 /\
    exists res, r.1 = Ret res /\ is_Some (out res).
Proof.
  intros cf r Htr Hin. subst r cf.
  destruct (LoadDir_outcome dir conf genTestPkg promptGenGo st)
    as (evs0 & Hev & [[E _]|(m & o & t & e & Hm & E & _)]).
  - rewrite E in Htr. simpl in Htr. apply app_inv_head in Htr. subst evs0.
    by destruct (loop_event_not_save _ _ _ _ _ Hev Hin).
  - rewrite E in Htr |- *. simpl in Htr. unfold afterLoad_state in Htr.
    exists m. split; [done|].
    destruct (String.eqb_spec (gopmod.Path m) gopMod) as [|Hne].
    { simpl in Htr. apply app_inv_head in Htr. subst evs0.
      by destruct (loop_event_not_save _ _ _ _ _ Hev Hin). }
    simpl in Htr. rewrite <- app_assoc in Htr. apply app_inv_head in Htr.
    subst evs. apply elem_of_app in Hin as [Hin|Hin];
      [by destruct (loop_event_not_save _ _ _ _ _ Hev Hin)|].
    destruct (DontUpdateGoMod _), (gopmod.HasModfile m); simpl in Hin;
      try by apply elem_of_nil in Hin.
    destruct (Z.eqb_spec (Z.lor (flags_of o) (from_option flags_of 0 t)) 0);
      simpl in Hin; [by apply elem_of_nil in Hin|].
    apply list_elem_of_singleton in Hin. injection Hin as -> _.
    repeat (split; [done|]). eexists. split; [done|]. simpl. eauto.
Qed.

(** X11.  When [LoadDir] returns without an error, for a module other
    than Go+ itself and with the [GopDeps] slot supplied, the slot holds
    the flags of the production package that is returned. *)
Theorem LoadDir_GopDeps_on_success (dir : string) (conf : option Config)
    (genTestPkg : bool) (promptGenGo : list bool) (st : State)
    (m : gopmod.Module) (p : loc) (res : Loaded) :
  let cf := default new_Config conf in
  let r := LoadDir dir conf genTestPkg promptGenGo st in
  resolve_Mod cf dir = Some m -> gopmod.Path m <> gopMod ->
  GopDeps cf = Some p -> r.1 = Ret res -> err res = None ->
  exists o, out res = Some o /\ heap r.2 !! p = Some (flags_of o).
Proof.
  intros cf r Hm Hne Hp Hr He. subst r cf.
  destruct (LoadDir_outcome dir conf genTestPkg promptGenGo st)
    as (evs0 & Hev & [[_ H]|(m' & o & t & e & Hm' & E & _)]).
  - destruct (H res Hr) as [[e' He'] _]. congruence.
  - assert (m' = m) as -> by congruence.
    rewrite E in Hr |- *. injection Hr as <-. exists o. split; [done|].
    simpl. unfold afterLoad_state.
    destruct (String.eqb_spec (gopmod.Path m) gopMod) as [|_]; [done|].
    simpl. rewrite Hp. apply lookup_insert_eq.
Qed.

(** X12.  [LoadDir] leaves the caller's memory as it is when no
    [GopDeps] slot is supplied, and when the module is Go+ itself. *)
Theorem LoadDir_memory_untouched (dir : string) (conf : option Config)
    (genTestPkg : bool) (promptGenGo : list bool) (st : State) :
  let cf := default new_Config conf in
  GopDeps cf = None \/
  (forall m, resolve_Mod cf dir = Some m -> gopmod.Path m = gopMod) ->
  heap (LoadDir dir conf genTestPkg promptGenGo st).2 = heap st.
Proof.
  intros cf Hc. subst cf.
  destruct (LoadDir_outcome dir conf genTestPkg promptGenGo st)
    as (evs0 & Hev & [[E _]|(m & o & t & e & Hm & E & _)]).
  - by rewrite E.
  - rewrite E. simpl. unfold afterLoad_state.
    destruct (String.eqb_spec (gopmod.Path m) gopMod) as [|Hne]; [done|].
    simpl. destruct Hc as [-> | Hc]; [done|]. by destruct (Hne (Hc m Hm)).
Qed.

(** X13.  [LoadDir] writes to the standard error only when the first
    [promptGenGo] argument is true, and then only the line that names
    the directory. *)
Theorem LoadDir_stderr (dir : string) (conf : option Config)
    (genTestPkg : bool) (promptGenGo : list bool) (st : State)
    (evs : list Event) (line : string) :
  trace (LoadDir dir conf genTestPkg promptGenGo st).2 = trace st ++ evs ->
  EvStderr line ∈ evs ->
  line = "GenGo " +:+ dir +:+ " ..." /\ head promptGenGo = Some true.
Proof.
  intros Htr Hin.
  assert (forall evs0, Forall (loop_event dir promptGenGo) evs0 ->
            EvStderr line ∈ evs0 ->
            line = "GenGo " +:+ dir +:+ " ..." /\ head promptGenGo = Some true)
    as Hloop.
  { intros evs0 H Hin0. rewrite Forall_forall in H.
    destruct (H _ Hin0) as [(pkg & res & [=])|[[= ->] Hp]]. done. }
  destruct (LoadDir_outcome dir conf genTestPkg promptGenGo st)
    as (evs0 & Hev & [[E _]|(m & o & t & e & Hm & E & _)]).
  - rewrite E in Htr. simpl in Htr. apply app_inv_head in Htr. subst evs0.
    exact (Hloop _ Hev Hin).
  - rewrite E in Htr. simpl in Htr. unfold afterLoad_state in Htr.
    destruct (String.eqb (gopmod.Path m) gopMod).
    { simpl in Htr. apply app_inv_head in Htr. subst evs0. exact (Hloop _ Hev Hin). }
    simpl in Htr. rewrite <- app_assoc in Htr. apply app_inv_head in Htr.
    subst evs. apply elem_of_app in Hin as [Hin|Hin]; [exact (Hloop _ Hev Hin)|].
    destruct (_ && _); [by apply list_elem_of_singleton in Hin
                       | by apply elem_of_nil in Hin].
Qed.

End ResultExtras.

Section PartitionExtras.
Context `{C : Collaborators}.

Lemma test_entries_cons name pkg pkgs :
  length (test_entries ((name, pkg) :: pkgs)) =
  ((if strings.HasSuffix name "_test" then 1 else 0)
   + length (test_entries pkgs))%nat.
Proof.
  unfold test_entries. rewrite filter_cons.
  destruct (decide _) as [H|H]; simpl in H; rewrite ?H; [done|].
  by destruct (strings.HasSuffix name "_test").
Qed.

(** With nothing to compile, the loop does nothing: it ends with the
    test package, or on a second test package. *)
Lemma LoadDir_loop_unusable dir conf fset clConf prompt pkgs pkgTest st :
  Forall unusable pkgs ->
  let r := LoadDir_loop dir conf fset clConf prompt pkgs None pkgTest st in
  r.2 = st /\
  ((exists pt, r.1 = Ret (Finished None pt)) \/
   (r.1 = Ret (Returned {| out := None; test := None;
                           err := Some ErrMultiTestPackges |}) /\
    (2 <= length (test_entries pkgs)
          + match pkgTest with Some _ => 1 | None => 0 end)%nat)).
Proof.
  intros Hu. revert pkgTest.
  induction Hu as [|[name pkg] pkgs Hnp Hu IH]; intros pkgTest;
    cbn [LoadDir_loop]; cbv zeta.
  { split; [done|]. left. by eexists. }
  rewrite test_entries_cons.
  destruct (strings.HasSuffix name "_test") eqn:Es.
  - destruct pkgTest as [pt|].
    + split; [done|]. right. split; [done|]. lia.
    + destruct (IH (Some pkg)) as [E [Hfin|[Hret Hn]]]; (split; [done|]);
        [by left | right; split; [done | lia]].
  - destruct Hnp as [Hs|Hz]; simpl in *; [congruence|]. rewrite Hz. simpl.
    destruct (IH pkgTest) as [E [Hfin|[Hret Hn]]]; (split; [done|]);
      [by left | right; split; [done | lia]].
Qed.

(** The loop does not run to its end past two test packages. *)
Lemma LoadDir_loop_tests dir conf fset clConf prompt pkgs out pkgTest st o pt :
  (LoadDir_loop dir conf fset clConf prompt pkgs out pkgTest st).1 =
    Ret (Finished o pt) ->
  (length (test_entries pkgs)
   + match pkgTest with Some _ => 1 | None => 0 end <= 1)%nat.
Proof.
  revert out pkgTest st.
  induction pkgs as [|[name pkg] pkgs IH]; intros out pkgTest st;
    cbn [LoadDir_loop].
  { intros _. simpl. destruct pkgTest; lia. }
  rewrite test_entries_cons.
  destruct (strings.HasSuffix name "_test").
  { destruct pkgTest; [done|]. intros H. apply IH in H. lia. }
  destruct out; [done|].
  destruct (size (ast.Files pkg) =? 0)%nat; [apply IH|].
  rewrite bind_run, prompt_run, bind_run, NewPackage_run.
  destruct (cl_NewPackage "" pkg clConf).2 as [e|]; [|apply IH].
  rewrite bind_run.
  destruct (IgnoreNotatedError conf); unfold lift; [|done].
  by destruct (ignNotatedErrs e pkg fset).
Qed.

(** X14.  With the module resolved and the directory parsed: when every
    package found is a test package or has no Go+ files (none found
    included), and at most one is a test package, [LoadDir] compiles
    nothing, makes no call and returns [ErrNotFound]. *)
Theorem LoadDir_nothing_to_compile (dir : string) (conf : option Config)
    (genTestPkg : bool) (promptGenGo : list bool) (st : State)
    (m : gopmod.Module) :
  let cf := default new_Config conf in
  resolve_Mod cf dir = Some m ->
  let parsed := parser_ParseDirEx (default [] (Fset cf)) dir
                  (parserConf_of cf m) in
  parser.err parsed = None ->
  Forall unusable (parser.pkgs parsed) ->
  (length (test_entries (parser.pkgs parsed)) <= 1)%nat ->
  LoadDir dir conf genTestPkg promptGenGo st =
  (Ret {| out := None; test := None; err := Some ErrNotFound |}, st).
Proof.
  intros cf Hm parsed Herr Hu Hn.
  pose proof (LoadDir_resolve dir conf genTestPkg promptGenGo st) as Hres.
  cbv zeta in Hres. fold cf in Hres. rewrite Hm in Hres. rewrite Hres.
  unfold LoadDir_parsed. cbv zeta. fold parsed. rewrite Herr.
  destruct (length (parser.pkgs parsed) =? 0)%nat; [done|].
  rewrite bind_run.
  destruct (LoadDir_loop_unusable dir cf (parser.fset parsed)
              (clConf_of cf m (parser.fset parsed)) promptGenGo
              (parser.pkgs parsed) None st Hu) as [E [[pt Hfin]|[_ Hn2]]];
    [|lia].
  destruct (LoadDir_loop _ _ _ _ _ _ _ _ st) as [x st1]. simpl in *.
  by subst.
Qed.

(** X15.  With the module resolved and the directory parsed: when two
    or more test packages are found, [LoadDir] never returns without an
    error and never returns a test package, whether or not test
    packages were asked for. *)
Theorem LoadDir_two_test_packages (dir : string) (conf : option Config)
    (genTestPkg : bool) (promptGenGo : list bool) (st : State)
    (m : gopmod.Module) (res : Loaded) :
  let cf := default new_Config conf in
  resolve_Mod cf dir = Some m ->
  let parsed := parser_ParseDirEx (default [] (Fset cf)) dir
                  (parserConf_of cf m) in
  (2 <= length (test_entries (parser.pkgs parsed)))%nat ->
  (LoadDir dir conf genTestPkg promptGenGo st).1 = Ret res ->
  is_Some (err res) /\ test res = None.
Proof.
  intros cf Hm parsed Hn.
  pose proof (LoadDir_resolve dir conf genTestPkg promptGenGo st) as Hres.
  cbv zeta in Hres. fold cf in Hres. rewrite Hm in Hres. rewrite Hres.
  unfold LoadDir_parsed. cbv zeta. fold parsed.
  destruct (parser.err parsed); [intros [= <-]; simpl; eauto|].
  destruct (length (parser.pkgs parsed) =? 0)%nat; [intros [= <-]; simpl; eauto|].
  rewrite bind_run.
  destruct (LoadDir_loop_shape dir cf (parser.fset parsed)
              (clConf_of cf m (parser.fset parsed)) promptGenGo
              (parser.pkgs parsed) None None st) as (evs & _ & _ & Hret).
  pose proof (LoadDir_loop_tests dir cf (parser.fset parsed)
                (clConf_of cf m (parser.fset parsed)) promptGenGo
                (parser.pkgs parsed) None None st) as Hfin.
  destruct (LoadDir_loop _ _ _ _ _ _ _ _ st) as [[l|msg] st1]; [|done].
  destruct l as [x|o pt].
  - simpl. intros [= <-]. by apply Hret.
  - specialize (Hfin o pt eq_refl). simpl in Hfin. lia.
Qed.

(** X16.  With the module resolved: an error of the parser makes no
    call and is returned as it is by [LoadDir], and in a frame with the
    same cause by [LoadFiles]. *)
Theorem parse_error_returned (dir : string) (files : list string)
    (conf : option Config) (genTestPkg : bool) (promptGenGo : list bool)
    (st : State) (m : gopmod.Module) :
  let cf := default new_Config conf in
  resolve_Mod cf dir = Some m ->
  (forall e,
     parser.err (parser_ParseDirEx (default [] (Fset cf)) dir
                   (parserConf_of cf m)) = Some e ->
     LoadDir dir conf genTestPkg promptGenGo st =
     (Ret {| out := None; test := None; err := Some e |}, st)) /\
  (forall e,
     parser.err (parser_ParseEntries (default [] (Fset cf)) files
                   (parserConf_of cf m)) = Some e ->
     exists e', LoadFiles dir files conf st = (Ret (None, Some e'), st) /\
       errors.Err e' = errors.Err e /\ e' <> e).
Proof.
  intros cf Hm. split; intros e He.
  - pose proof (LoadDir_resolve dir conf genTestPkg promptGenGo st) as Hres.
    cbv zeta in Hres. fold cf in Hres. rewrite Hm in Hres. rewrite Hres.
    unfold LoadDir_parsed. cbv zeta. by rewrite He.
  - pose proof (LoadFiles_resolve dir files conf st) as Hres.
    cbv zeta in Hres. fold cf in Hres. rewrite Hm in Hres. rewrite Hres.
    unfold LoadFiles_parsed. cbv zeta. rewrite He.
    eexists. split; [done|]. split; [done|].
    unfold errors.NewWith. clear. intros H.
    apply (f_equal frame_depth) in H. simpl in H. lia.
Qed.

End PartitionExtras.

Section MoreExtras.
Context `{C : Collaborators}.

(** X17.  [LoadMod] does not take a module that is not found for an
    error: it goes on with [gopmod.Default].  Without an error it
    returns the loaded module or that default, never nil; and an error
    that it returns is one frame around the error of [gopmod.Load] or of
    [ImportClasses], with the same cause. *)
Theorem LoadMod_result (dir : string) :
  let l := gopmod_Load dir in
  let m := default gopmod_Default l.1 in
  match (LoadMod dir).2 with
  | None =>
      (LoadMod dir).1 = Some m /\
      (forall e, l.2 = Some e -> gopmod_IsNotFound e = true) /\
      Module_ImportClasses m = None
  | Some e' =>
      exists e, errors.Err e' = errors.Err e /\
        frame_depth e' = S (frame_depth e) /\
        ((l.2 = Some e /\ gopmod_IsNotFound e = false) \/
         ((forall x, l.2 = Some x -> gopmod_IsNotFound x = true) /\
          Module_ImportClasses m = Some e))
  end.
Proof.
  cbv zeta. unfold LoadMod. destruct (gopmod_Load dir) as [m0 [e0|]]; simpl.
  - destruct (gopmod_IsNotFound e0) eqn:En; simpl.
    + destruct (Module_ImportClasses (default gopmod_Default m0)) as [e|] eqn:Ei;
        simpl.
      * exists e. split; [done|]. split; [done|]. right. split; [|done].
        by intros x [= <-].
      * split; [done|]. split; [|done]. by intros x [= <-].
    + exists e0. split; [done|]. split; [done|]. by left.
  - destruct (Module_ImportClasses (default gopmod_Default m0)) as [e|] eqn:Ei;
      simpl.
    + exists e. split; [done|]. split; [done|]. right. by split.
    + by split.
Qed.

(** X18.  [NewDefaultConf] does not panic.  It returns no configuration
    exactly when [LoadMod] fails, with the error of [LoadMod]; otherwise
    its configuration carries the module of [LoadMod], so that a load
    under it does not load the module again, and has no [GopDeps] slot,
    so that [LoadDir] under it leaves the caller's memory as it is. *)
Theorem NewDefaultConf_result (dir : string) (noTestFile : bool) :
  exists oc oe, NewDefaultConf dir noTestFile = Ret (oc, oe) /\
    oe = (LoadMod dir).2 /\
    match oe with
    | Some _ => oc = None
    | None =>
        exists conf m, oc = Some conf /\ (LoadMod dir).1 = Some m /\
          (forall d, resolve_Mod conf d = Some m) /\
          (Filter conf = None <-> noTestFile = false) /\
          (forall d genTestPkg promptGenGo st,
             heap (LoadDir d (Some conf) genTestPkg promptGenGo st).2 = heap st)
    end.
Proof.
  unfold NewDefaultConf.
  pose proof (LoadMod_module dir) as Hm.
  destruct (LoadMod dir) as [[m'|] [e|]]; simpl in *;
    [by eexists _, _ | | by eexists _, _ | by destruct (Hm eq_refl)].
  - eexists _, _. split; [done|]. split; [done|].
    eexists _, m'. split; [done|]. split; [done|]. split; [done|]. split.
    + simpl. by destruct noTestFile.
    + intros d g p st. apply LoadDir_memory_untouched. by left.
Qed.

(** X19.  [LoadFiles] compiles at most one package, writes nothing to
    the standard error and calls [SaveWithGopMod] at most once, after
    the compile.  Without a compile it returns no package and an error;
    after a compile it returns the package of the compile, and an error
    exactly when the compile returned one: reconciliation never clears
    an error. *)
Theorem LoadFiles_shape (dir : string) (files : list string)
    (conf : option Config) (st : State) :
  let r := LoadFiles dir files conf st in
  exists evs, trace r.2 = trace st ++ evs /\
    ((evs = [] /\ forall o e, r.1 = Ret (o, e) -> o = None /\ is_Some e) \/
     (exists pkg res rest,
        evs = EvNewPackage pkg res :: rest /\
        (rest = [] \/ exists flags x, rest = [EvSaveWithGopMod flags x]) /\
        forall o e, r.1 = Ret (o, e) ->
          o = res.1 /\ (is_Some e <-> is_Some res.2))).
Proof.
  cbv zeta. rewrite LoadFiles_staged. cbv zeta.
  set (cf := default new_Config conf).
  assert (forall e : error, exists evs : list Event,
            trace (Ret (None : option gox.Package, Some e), st).2 = trace st ++ evs /\
            ((evs = [] /\
              forall o e0, (Ret (None : option gox.Package, Some e), st).1 =
                           Ret (o, e0) -> o = None /\ is_Some e0) \/
             (exists pkg res rest,
                evs = EvNewPackage pkg res :: rest /\
                (rest = [] \/ exists flags x, rest = [EvSaveWithGopMod flags x]) /\
                forall o e0, (Ret (None : option gox.Package, Some e), st).1 =
                             Ret (o, e0) ->
                  o = res.1 /\ (is_Some e0 <-> is_Some res.2)))) as Hquiet.
  { intros e. exists []. rewrite app_nil_r. split; [done|]. left. split; [done|].
    intros o e0 [= <- <-]. eauto. }
  assert (forall m, exists evs : list Event,
            trace (LoadFiles_parsed files cf m st).2 = trace st ++ evs /\
            ((evs = [] /\
              forall o e0, (LoadFiles_parsed files cf m st).1 = Ret (o, e0) ->
                           o = None /\ is_Some e0) \/
             (exists pkg res rest,
                evs = EvNewPackage pkg res :: rest /\
                (rest = [] \/ exists flags x, rest = [EvSaveWithGopMod flags x]) /\
                forall o e0, (LoadFiles_parsed files cf m st).1 = Ret (o, e0) ->
                  o = res.1 /\ (is_Some e0 <-> is_Some res.2)))) as Hparsed.
  { intros m. unfold LoadFiles_parsed. cbv zeta.
    set (parsed := parser_ParseEntries (default [] (Fset cf)) files
                     (parserConf_of cf m)).
    destruct (parser.err parsed); [apply Hquiet|].
    destruct (parser.pkgs parsed) as [|[name pkg] [|np pkgs]]; try apply Hquiet.
    rewrite bind_run, NewPackage_run.
    set (res := cl_NewPackage "" pkg (clConf_of cf m (parser.fset parsed))).
    rewrite bind_run.
    assert (exists x, LoadFiles_reconcile cf pkg (parser.fset parsed) res.2
                        (after st [EvNewPackage pkg res]) =
                      (x, after st [EvNewPackage pkg res]) /\
              forall e', x = Ret e' -> (is_Some e' <-> is_Some res.2)) as (x & -> & Hx).
    { unfold LoadFiles_reconcile. destruct (res.2) as [e|].
      - destruct (IgnoreNotatedError cf).
        + rewrite bind_run. unfold lift.
          destruct (ignNotatedErrs e pkg (parser.fset parsed)) as [e'|msg];
            eexists; (split; [done|]); [|done].
          intros ? [= <-]. split; eauto.
        + eexists. split; [done|]. intros ? [= <-]. split; eauto.
      - eexists. split; [done|]. by intros ? [= <-]. }
    destruct x as [e'|msg].
    2:{ exists [EvNewPackage pkg res]. split; [done|]. right.
        exists pkg, res, []. split; [done|]. split; [by left | done]. }
    rewrite bind_run. destruct (res.1) as [o|] eqn:Eo.
    - rewrite afterLoad_Some. unfold afterLoad_state.
      destruct (String.eqb (gopmod.Path m) gopMod).
      + exists [EvNewPackage pkg res]. split; [done|]. right.
        exists pkg, res, []. split; [done|]. split; [by left|].
        intros o' e0 [= <- <-]. rewrite Eo. split; [done | by apply Hx].
      + eexists. simpl. split; [by rewrite <- app_assoc|]. right.
        exists pkg, res. eexists. split; [done|]. split.
        * destruct (_ && _); [right; by eexists _, _ | by left].
        * intros o' e0 [= <- <-]. rewrite Eo. split; [done | by apply Hx].
    - destruct (afterLoad_None m (gop_of cf) None cf
                  (after st [EvNewPackage pkg res])) as [r ->].
      destruct r as [[]|msg];
        (exists [EvNewPackage pkg res]; split; [done|]; right;
         exists pkg, res, []; split; [done|]; split; [by left|]); [|done].
      intros o' e0 [= <- <-]. rewrite Eo. split; [done | by apply Hx]. }
  destruct (Mod cf) as [m|]; [apply Hparsed|].
  destruct (LoadMod dir) as [[m|] [e|]];
    [apply Hquiet | apply Hparsed | apply Hquiet|].
  exists []. rewrite app_nil_r. split; [done|]. by left.
Qed.

(** X20.  Provided the parser files packages under their names: when
    test packages are not asked for, [LoadDir] compiles no test
    package. *)
Theorem LoadDir_no_test_compile (dir : string) (conf : option Config)
    (promptGenGo : list bool) (st : State) (evs : list Event)
    (pkg : ast.Package) (x : option gox.Package * option error) :
  keyed_by_name ->
  trace (LoadDir dir conf false promptGenGo st).2 = trace st ++ evs ->
  EvNewPackage pkg x ∈ evs -> is_test pkg = false.
Proof.
  intros Hkey Htr Hin.
  pose proof (LoadDir_resolve dir conf false promptGenGo st) as Hres.
  cbv zeta in Hres. set (cf := default new_Config conf) in *.
  destruct (resolve_Mod cf dir) as [m|].
  2:{ destruct Hres as [r Hr]. rewrite Hr in Htr. simpl in Htr.
      rewrite <- (app_nil_r (trace st)) in Htr at 1. apply app_inv_head in Htr.
      subst evs. by apply elem_of_nil in Hin. }
  rewrite Hres in Htr. unfold LoadDir_parsed in Htr. cbv zeta in Htr.
  set (parsed := parser_ParseDirEx (default [] (Fset cf)) dir (parserConf_of cf m))
    in *.
  assert (forall r : outcome Loaded, trace (r, st).2 = trace st ++ evs -> False)
    as Hquiet.
  { intros r Hr. simpl in Hr.
    rewrite <- (app_nil_r (trace st)) in Hr at 1. apply app_inv_head in Hr.
    subst evs. by apply elem_of_nil in Hin. }
  destruct (parser.err parsed); [by destruct (Hquiet _ Htr)|].
  destruct (length (parser.pkgs parsed) =? 0)%nat; [by destruct (Hquiet _ Htr)|].
  rewrite bind_run in Htr.
  destruct (LoadDir_loop_events dir cf (parser.fset parsed)
              (clConf_of cf m (parser.fset parsed)) promptGenGo
              (parser.pkgs parsed) None None st (Hkey _ _ _))
    as (evs0 & E & H1 & H4 & _).
  destruct (LoadDir_loop _ _ _ _ _ _ _ _ st) as [[l|msg] st1]; simpl in E; subst st1.
  2:{ simpl in Htr. apply app_inv_head in Htr. subst evs0. by eapply H1. }
  destruct l as [res|[o|] pt].
  - simpl in Htr. apply app_inv_head in Htr. subst evs0. by eapply H1.
  - rewrite LoadDir_tail_Finished in Htr. simpl in Htr.
    assert (match pt with Some _ => [] | None => [] end = @nil Event) as Hnil
      by (by destruct pt).
    rewrite Hnil, after_nil in Htr. unfold afterLoad_state in Htr.
    destruct (String.eqb (gopmod.Path m) gopMod).
    { simpl in Htr. apply app_inv_head in Htr. subst evs0. by eapply H1. }
    simpl in Htr. rewrite <- app_assoc in Htr. apply app_inv_head in Htr.
    subst evs. apply elem_of_app in Hin as [Hin|Hin]; [by eapply H1|].
    destruct (_ && _); [by apply list_elem_of_singleton in Hin
                       | by apply elem_of_nil in Hin].
  - simpl in Htr. apply app_inv_head in Htr. subst evs0. by eapply H1.
Qed.

End MoreExtras.

Section RoundTrip.
Context `{C : Collaborators}.

(** [LoadDir] on a directory whose first production package fails. *)
Lemma LoadDir_first_fails dir conf genTestPkg promptGenGo st m name pkg rest e x :
  let cf := default new_Config conf in
  let parsed := parser_ParseDirEx (default [] (Fset cf)) dir
                  (parserConf_of cf m) in
  let res := cl_NewPackage "" pkg (clConf_of cf m (parser.fset parsed)) in
  resolve_Mod cf dir = Some m ->
  parser.err parsed = None -> parser.pkgs parsed = (name, pkg) :: rest ->
  strings.HasSuffix name "_test" = false -> size (ast.Files pkg) <> 0%nat ->
  res.2 = Some e ->
  (if IgnoreNotatedError cf then ignNotatedErrs e pkg (parser.fset parsed)
   else Ret e) = x ->
  (LoadDir dir conf genTestPkg promptGenGo st).1 =
  match x with
  | Ret e' => Ret {| out := res.1; test := None; err := Some e' |}
  | Panic msg => Panic msg
  end.
Proof.
  intros cf parsed res Hm Herr Hpkgs Hsuf Hsize He Hrec.
  pose proof (LoadDir_resolve dir conf genTestPkg promptGenGo st) as Hres.
  cbv zeta in Hres. fold cf in Hres. rewrite Hm in Hres. rewrite Hres.
  unfold LoadDir_parsed. cbv zeta. fold parsed. rewrite Herr, Hpkgs.
  cbn [length Nat.eqb LoadDir_loop]. rewrite Hsuf.
  rewrite (proj2 (Nat.eqb_neq _ _) Hsize).
  rewrite bind_run, bind_run, prompt_run, bind_run, NewPackage_run.
  fold res. rewrite He. rewrite bind_run.
  destruct (IgnoreNotatedError cf); unfold lift; subst x.
  - by destruct (ignNotatedErrs e pkg (parser.fset parsed)).
  - done.
Qed.

(** X21.  With the module resolved and the directory parsed to a
    well-formed file set and package: when the compile of the production
    package that the loop visits first fails with an error list, then
    under [IgnoreNotatedError] the error that [LoadDir] returns is
    recognised by [IgnoreNotated] exactly when every error of the list
    is notated; without [IgnoreNotatedError] [LoadDir] returns the list
    itself, which [IgnoreNotated] does not recognise. *)
Theorem LoadDir_notated_round_trip (dir : string) (conf : option Config)
    (genTestPkg : bool) (promptGenGo : list bool) (st : State)
    (m : gopmod.Module) (name : string) (pkg : ast.Package)
    (rest : list (string * ast.Package)) (v : list error) :
  let cf := default new_Config conf in
  let parsed := parser_ParseDirEx (default [] (Fset cf)) dir
                  (parserConf_of cf m) in
  let fset := parser.fset parsed in
  let res := cl_NewPackage "" pkg (clConf_of cf m fset) in
  resolve_Mod cf dir = Some m ->
  parser.err parsed = None -> parser.pkgs parsed = (name, pkg) :: rest ->
  strings.HasSuffix name "_test" = false -> size (ast.Files pkg) <> 0%nat ->
  res.2 = Some (List v) -> wf_FileSet fset -> wf_Package pkg fset ->
  exists e',
    (LoadDir dir conf genTestPkg promptGenGo st).1 =
      Ret {| out := res.1; test := None; err := Some e' |} /\
    if IgnoreNotatedError cf
    then IgnoreNotated e' = true <-> Forall (fun e => notated e pkg fset) v
    else e' = List v /\ IgnoreNotated e' = false.
Proof.
  intros cf parsed fset res Hm Herr Hpkgs Hsuf Hsize He Hf Hp.
  pose proof (LoadDir_first_fails dir conf genTestPkg promptGenGo st m name pkg
                rest (List v) _ Hm Herr Hpkgs Hsuf Hsize He eq_refl) as Hrun.
  fold cf parsed fset res in Hrun.
  destruct (IgnoreNotatedError cf) eqn:Ei.
  - destruct (ignNotatedErrs (List v) pkg fset) as [e'|msg] eqn:Er.
    + exists e'. split; [done|].
      unfold ignNotatedErrs in Er.
      rewrite (ignNotatedErrs_loop_filter v pkg fset [] Hf Hp) in Er. simpl in Er.
      assert (filter (fun e => notatedb pkg fset e = false) v = [] <->
              Forall (fun e => notated e pkg fset) v) as Hall.
      { rewrite filter_nil_Forall.
        split; intros H; (eapply Forall_impl; [exact H|]); simpl; intros e He'.
        - apply notatedb_true; [done..|]. by destruct (notatedb pkg fset e).
        - apply notatedb_true in He'; [|done..]. by rewrite He'. }
      rewrite <- Hall.
      destruct (filter _ v) as [|y ret]; simpl in Er; injection Er as <-; done.
    + exfalso. unfold ignNotatedErrs in Er.
      rewrite (ignNotatedErrs_loop_filter v pkg fset [] Hf Hp) in Er.
      simpl in Er. by destruct (filter _ v).
  - exists (List v). done.
Qed.

End RoundTrip.

(** ** The further properties on the small project *)

Lemma LoadDir_result_shape_witness :
  let C := Demo.world Demo.both Demo.compile_ok Demo.save_ok in
  is_Some (Some Demo.out01) /\ true = true.
Proof.
  intros C.
  destruct (LoadDir_result_shape (C := C) "/demo" (Some (Demo.conf None false)) true
              [] Demo.st0
              {| out := Some Demo.out01; test := Some Demo.out10; err := None |}
              eq_refl) as [_ H].
  apply H. by eexists.
Defined.

Lemma LoadDir_saves_only_when_witness :
  let C := Demo.world Demo.both Demo.compile_ok Demo.save_ok in
  exists m, resolve_Mod (Demo.conf None false) "/demo" = Some m /\
    gopmod.Path m <> gopMod /\ gopmod.HasModfile m = true.
Proof.
  intros C.
  destruct (LoadDir_saves_only_when (C := C) "/demo" (Some (Demo.conf None false))
              true [] Demo.st0 Demo2.calls 3 None eq_refl)
    as (m & H1 & H2 & H3 & _).
  - do 2 apply list_elem_of_further. apply list_elem_of_here.
  - exists m. auto.
Defined.

Lemma LoadDir_GopDeps_on_success_witness :
  let C := Demo.world Demo.both Demo.compile_ok Demo.save_ok in
  let r := LoadDir "/demo" (Some (Demo.conf (Some 7%nat) false)) true [] Demo.st0 in
  exists o, Some Demo.out01 = Some o /\ heap r.2 !! 7%nat = Some (flags_of o).
Proof.
  intros C r.
  apply (LoadDir_GopDeps_on_success (C := C) "/demo"
           (Some (Demo.conf (Some 7%nat) false)) true [] Demo.st0 Demo.mod_ 7%nat
           {| out := Some Demo.out01; test := Some Demo.out10; err := None |});
    [reflexivity | discriminate | reflexivity | reflexivity | reflexivity].
Defined.

Lemma LoadDir_memory_untouched_witness :
  let C := Demo.world Demo.both Demo.compile_ok Demo.save_ok in
  heap (LoadDir "/demo" None true [true] Demo.st0).2 = heap Demo.st0.
Proof.
  intros C. apply (LoadDir_memory_untouched (C := C)). by left.
Defined.

Lemma LoadDir_stderr_witness :
  let C := Demo.world Demo.both Demo.compile_ok Demo.save_ok in
  "GenGo /demo ..." = "GenGo " +:+ "/demo" +:+ " ..." /\ head [true] = Some true.
Proof.
  intros C.
  apply (LoadDir_stderr (C := C) "/demo" (Some (Demo.conf None false)) true [true]
           Demo.st0 (EvStderr "GenGo /demo ..." :: Demo2.calls) "GenGo /demo ...");
    [reflexivity | apply list_elem_of_here].
Defined.

Lemma LoadDir_nothing_to_compile_witness :
  let C := Demo.world [("main_test", Demo.main_test); ("aux", Demo.aux)]
             Demo.compile_ok Demo.save_ok in
  LoadDir "/demo" None true [] Demo.st0 =
  (Ret {| out := None; test := None; err := Some ErrNotFound |}, Demo.st0).
Proof.
  intros C.
  apply (LoadDir_nothing_to_compile (C := C) "/demo" None true [] Demo.st0 Demo.mod_);
    [reflexivity | reflexivity | | simpl; lia].
  repeat apply Forall_cons_2; [by left | by right | apply Forall_nil_2].
Defined.

Lemma LoadDir_two_test_packages_witness :
  let C := Demo.world [("main_test", Demo.main_test); ("main", Demo.main);
                       ("other_test", Demo2.other_test)]
             Demo.compile_ok Demo.save_ok in
  is_Some (Some ErrMultiTestPackges) /\ @None gox.Package = None.
Proof.
  intros C.
  apply (LoadDir_two_test_packages (C := C) "/demo" None false [] Demo.st0 Demo.mod_
           {| out := None; test := None; err := Some ErrMultiTestPackges |});
    [reflexivity | simpl; lia | reflexivity].
Defined.

Lemma parse_error_returned_witness :
  LoadDir (C := Demo2.world_parse_error) "/demo" None true [] Demo.st0 =
  (Ret {| out := None; test := None; err := Some Demo2.syntax_error |}, Demo.st0).
Proof.
  destruct (parse_error_returned (C := Demo2.world_parse_error) "/demo" ["a.gop"]
              None true [] Demo.st0 Demo.mod_ eq_refl) as [H _].
  apply H. reflexivity.
Defined.

Lemma LoadDir_no_test_compile_witness :
  let C := Demo.world Demo.both Demo.compile_ok Demo.save_ok in
  is_test Demo.main = false.
Proof.
  intros C.
  apply (LoadDir_no_test_compile (C := C) "/demo" (Some (Demo.conf None false)) []
           Demo.st0
           [EvNewPackage Demo.main (Some Demo.out01, None); EvSaveWithGopMod 1 None]
           Demo.main (Some Demo.out01, None));
    [| reflexivity | apply list_elem_of_here].
  intros fset dir pc. simpl. repeat constructor.
Defined.

Lemma LoadDir_notated_round_trip_witness :
  let C := Demo.world Demo.both Demo2.compile_main_fails_list Demo.save_ok in
  exists e',
    (LoadDir "/demo" (Some (Demo.conf None true)) true [] Demo.st0).1 =
      Ret {| out := None; test := None; err := Some e' |} /\
    (IgnoreNotated e' = true <->
     Forall (fun e => notated e Demo.main Demo.fset) [Demo.undefined]).
Proof.
  intros C. destruct wf_Demo as (Hf & Hp & _).
  apply (LoadDir_notated_round_trip (C := C) "/demo" (Some (Demo.conf None true))
           true [] Demo.st0 Demo.mod_ "main" Demo.main
           [("main_test", Demo.main_test)] [Demo.undefined]);
    [reflexivity | reflexivity | reflexivity | reflexivity | by vm_compute
    | reflexivity | exact Hf | exact Hp].
Defined.
